(** * chai-aur-react: the currency converter and the password generator

  A shallow embedding of the two widgets that carry logic:

  - [useCurrencyInfo] (10_currencyConvertor/src/hooks/useCurrencyInfo.js)
    and [App] (10_currencyConvertor/src/App.jsx);
  - [passwordGenerator] and its effect (09_passwordGenerator/README.md).

  JavaScript values are an inductive type, numbers are IEEE binary64
  ([PrimFloat]), objects are finite maps from property names to values
  ([gmap]); what a property read finds on the prototype chain, and what a
  call of a function found there does, are parameters of the development
  ([Host]). A string is the sequence of its code units, one [ascii] per
  unit: the embedding has the strings whose code units are below 256.

  The hooks follow the production behaviour of the UI framework. A
  component's state is a record. An event handler maps the cells of the
  render it closes over to a batch of updates, applied in call order
  before the next render. An effect runs after a render when one of its
  dependencies differs (Object.is) from the value it had at the previous
  render, and at mount; effects run in the order of their hooks. A
  promise chain runs when its request settles and may write the state; a
  state setter that is handed a function takes it for an updater and
  calls it with the state. An uncaught exception in a render or a handler
  tears the component down ([None]). The second invocation of effects
  that the development-only strict mode adds is not modelled.
  [Math.random()] is a stream of binary64 numbers, and the index of a
  character is the floor of the rounded binary64 product.

  The module [Store] models the reactive store that the specification
  describes and the repository does not contain. The modules after it
  cover the rest of the two components: the strength meter and the copy
  button of the password generator, and the histories of the hook and of
  [App]. *)

From Stdlib Require Import ZArith String Ascii List Floats Lia.
From Stdlib Require Uint63.
From stdpp Require Import base option list strings gmap.

Set Warnings "-register-all".

Local Open Scope string_scope.

(* ================================================================== *)
(** ** JavaScript values *)
(* ================================================================== *)

Module JS.

Inductive value : Type :=
| VUndefined
| VNull
| VBool (b : bool)
| VNum (x : float)
| VStr (s : string)
| VArr (elems : list value)
| VObj (props : gmap string value)
| VFun (name : string).

(** [{}] *)
Definition empty_object : value := VObj ∅.

(** What a call [f(x)] of a function of the host does: it throws, it
    returns [x] itself (as [Object(x)] does on an object), or it returns
    [v], a primitive or an object that the call has made. *)
Inductive Outcome :=
| Throws
| ReturnsArgument
| Returns (v : value).

(** What the embedding takes from the host: the prototype chain, the
    number parser behind [ToNumber] on non-empty strings and arrays, and
    the functions found on the prototype chain. *)
Class Host := {
  (** result of reading property [k] of [v] when [k] is no own data
      property of a parsed object [v]; every read on a string, a number,
      a boolean, an array or a function *)
  proto_get : value -> string -> value;
  (** [ToNumber] on non-empty strings and on arrays *)
  coerce_number : value -> float;
  (** the call [f(x)] of the function named [f], with the one argument
      [x] and no receiver *)
  call : string -> value -> Outcome
}.

(** A host whose prototypes answer no key. *)
Definition plain_host : Host :=
  {| proto_get := fun _ _ => VUndefined; coerce_number := fun _ => nan;
     call := fun _ _ => Throws |}.

(** ToBoolean: [undefined], [null], [false], [+0], [-0], [NaN] and the
    empty string are falsy. *)
Definition to_boolean (v : value) : bool :=
  match v with
  | VUndefined | VNull => false
  | VBool b => b
  | VNum x => negb (PrimFloat.is_zero x || PrimFloat.is_nan x)
  | VStr s => negb (String.eqb s "")
  | VArr _ | VObj _ | VFun _ => true
  end.

(** ToNumber. *)
Definition to_number `{Host} (v : value) : float :=
  match v with
  | VUndefined => nan
  | VNull => 0%float
  | VBool b => if b then 1%float else 0%float
  | VNum x => x
  | VStr s => if String.eqb s "" then 0%float else coerce_number v
  | VArr _ => coerce_number v
  | VObj _ | VFun _ => nan
  end.

(** [a * b] on a number and a value. *)
Definition mul `{Host} (a : float) (b : value) : float :=
  PrimFloat.mul a (to_number b).

(** [v[k]]: [None] is the TypeError of reading a property of [undefined]
    or [null]. *)
Definition get `{Host} (v : value) (k : string) : option value :=
  match v with
  | VUndefined | VNull => None
  | VObj props =>
      Some (match props !! k with Some x => x | None => proto_get v k end)
  | _ => Some (proto_get v k)
  end.

(** [a || b] *)
Definition or_else (a b : value) : value := if to_boolean a then a else b.

(** Object.is on primitives. *)
Definition same_primitive (a b : value) : bool :=
  match a, b with
  | VUndefined, VUndefined | VNull, VNull => true
  | VBool x, VBool y => Bool.eqb x y
  | VNum x, VNum y => PrimFloat.Leibniz.eqb x y
  | VStr x, VStr y => String.eqb x y
  | _, _ => false
  end.

Definition is_primitive (v : value) : bool :=
  match v with
  | VArr _ | VObj _ | VFun _ => false
  | _ => true
  end.

(** [typeof v === 'function'] *)
Definition is_function (v : value) : bool :=
  match v with
  | VFun _ => true
  | _ => false
  end.

(** An object or an array, as [JSON.parse] makes them. *)
Definition is_object (v : value) : bool :=
  match v with
  | VArr _ | VObj _ => true
  | _ => false
  end.

(** A value together with the allocation stamp of the object it denotes
    (ignored for primitives). *)
Record Ref := { ref : nat; val : value }.

(** Object.is: identity on objects, SameValue on primitives. *)
Definition object_is (a b : Ref) : bool :=
  if is_primitive (val a) then same_primitive (val a) (val b)
  else negb (is_primitive (val b)) && Nat.eqb (ref a) (ref b).

(** The lowercase mapping of the code units below 256: the capitals A-Z
    (65-90) and the capitals U+00C0-U+00DE without the multiplication sign
    U+00D7 (192-222 without 215) have their lowercase form 32 above; no
    other code unit below 256 changes, and none maps to several units. *)
Definition lower_unit (c : ascii) : ascii :=
  let n := nat_of_ascii c in
  if ((65 <=? n)%nat && (n <=? 90)%nat)
     || ((192 <=? n)%nat && (n <=? 222)%nat && negb (n =? 215)%nat)
  then ascii_of_nat (n + 32) else c.

(** [String.prototype.toLowerCase] *)
Fixpoint toLowerCase (s : string) : string :=
  match s with
  | EmptyString => EmptyString
  | String c s' => String (lower_unit c) (toLowerCase s')
  end.

(** A number without fractional part, as [Math.floor] returns it. *)
Inductive Whole :=
| WholeNaN
| WholeInfinity (negative : bool)
| WholeNumber (z : Z).

(** [Math.floor(x)]: a finite [x] is [m * 2^e] up to its sign; the shift
    of the signed mantissa by [e] rounds towards minus infinity. *)
Definition Math_floor (x : float) : Whole :=
  match Prim2SF x with
  | SpecFloat.S754_nan => WholeNaN
  | SpecFloat.S754_infinity s => WholeInfinity s
  | SpecFloat.S754_zero _ => WholeNumber 0
  | SpecFloat.S754_finite s m e =>
      WholeNumber (Z.shiftl (if s then Z.neg m else Z.pos m) e)
  end.

(** [s.length] as a number. *)
Definition length_of (s : string) : float :=
  PrimFloat.of_uint63 (Uint63.of_Z (Z.of_nat (String.length s))).

(** The code unit of [s] at the index [i]; the empty string outside
    [0 .. length-1]. *)
Definition unit_at (s : string) (i : Z) : string :=
  if (i <? 0)%Z then ""
  else match String.get (Z.to_nat i) s with
       | Some c => String c EmptyString
       | None => ""
       end.

(** [s.charAt(pos)] on a whole [pos]: [NaN] is the index 0, an infinity
    is outside every string. *)
Definition charAt (s : string) (pos : Whole) : string :=
  match pos with
  | WholeNaN => unit_at s 0
  | WholeInfinity _ => ""
  | WholeNumber i => unit_at s i
  end.

End JS.

(* ================================================================== *)
(** ** Binary64 rounding *)
(* ================================================================== *)

Module Rounding.

(** What [j] steps of the shift of the rounding of [SpecFloat] have made
    of the mantissa [P]: the quotient by [2^j], and a round bit that is
    set only when the remainder is at least half of [2^j]. *)
Definition shifted (P j : Z) (mrs : SpecFloat.shr_record) : Prop :=
  SpecFloat.shr_m mrs = (P / 2 ^ j)%Z
  /\ (SpecFloat.shr_r mrs = true -> (2 ^ j <= 2 * (P mod 2 ^ j))%Z).

End Rounding.

(* ================================================================== *)
(** ** The password generator (09_passwordGenerator) *)
(* ================================================================== *)

Module PasswordGenerator.
Import JS.

(** The random source. [Math.random()] is threaded as explicit state: the
    stream of the numbers the successive calls return. *)
Definition Rng := nat -> float.

Definition Math_random (g : Rng) : float * Rng := (g O, fun n => g (S n)).

(** [Math.random()] returns a number in [0, 1). *)
Definition in_unit (g : Rng) : Prop :=
  forall n, (0 <=? g n)%float = true /\ (g n <? 1)%float = true.

Definition upper_lower : string :=
  "ABCDEFGHIJKLMNOPQRSTUVWXYZabcdefghijklmnopqrstuvwxyz".
Definition digits : string := "0123456789".
Definition symbols : string := "!@#$%^&*-_+=[]{}~`".

(** The character pool [str] after the two conditional appends. *)
Definition pool (numberAllowed charAllowed : bool) : string :=
  let str := upper_lower in
  let str := if numberAllowed then str +:+ digits else str in
  let str := if charAllowed then str +:+ symbols else str in
  str.

(** The body of [for (let i = 1; i <= length; i++)], [n] iterations left. *)
Fixpoint generate_loop (n : nat) (str pass : string) (g : Rng) : string * Rng :=
  match n with
  | O => (pass, g)
  | S n' =>
      let '(r, g') := Math_random g in
      let char := Math_floor (r * length_of str)%float in
      generate_loop n' str (pass +:+ charAt str char) g'
  end.

(** [passwordGenerator]: the string handed to [setPassword] and the random
    source after the calls. The loop runs [length] times ([0] when
    [length < 1]). *)
Definition passwordGenerator (length : Z) (numberAllowed charAllowed : bool)
    (g : Rng) : string * Rng :=
  generate_loop (Z.to_nat length) (pool numberAllowed charAllowed) "" g.

(** The cells of the component. *)
Record Cells := {
  length : Z;
  numberAllowed : bool;
  charAllowed : bool;
  password : string
}.

(** One mounted component: its cells, the dependencies at the effect's
    last run, the random source, and how often the effect has run. *)
Record Widget := {
  cells : Cells;
  deps : option (Z * bool * bool);
  rng : Rng;
  effect_runs : nat
}.

(** [[length, numberAllowed, charAllowed, passwordGenerator]]: the
    callback is recreated by [useCallback] exactly when one of the first
    three changes, so the array changes exactly when the triple does. *)
Definition deps_of (c : Cells) : Z * bool * bool :=
  (length c, numberAllowed c, charAllowed c).

Definition deps_eqb (a b : Z * bool * bool) : bool :=
  let '(l1, n1, c1) := a in
  let '(l2, n2, c2) := b in
  Z.eqb l1 l2 && Bool.eqb n1 n2 && Bool.eqb c1 c2.

Definition deps_changed (prev : option (Z * bool * bool)) (c : Cells) : bool :=
  match prev with
  | None => true
  | Some d => negb (deps_eqb d (deps_of c))
  end.

Definition setPassword (p : string) (c : Cells) : Cells :=
  {| length := length c; numberAllowed := numberAllowed c;
     charAllowed := charAllowed c; password := p |}.

(** A call of [passwordGenerator()] against the snapshot [c]. *)
Definition generate (w : Widget) : Widget :=
  let c := cells w in
  let '(pass, g') :=
    passwordGenerator (length c) (numberAllowed c) (charAllowed c) (rng w) in
  {| cells := setPassword pass c; deps := deps w; rng := g';
     effect_runs := effect_runs w |}.

(** The effect [useEffect(() => { passwordGenerator() }, [...])] after a
    render. *)
Definition run_effect (w : Widget) : Widget :=
  if deps_changed (deps w) (cells w) then
    let w' := generate w in
    {| cells := cells w'; deps := Some (deps_of (cells w)); rng := rng w';
       effect_runs := S (effect_runs w) |}
  else w.

Definition initial (g : Rng) : Widget :=
  {| cells := {| length := 12; numberAllowed := true; charAllowed := true;
                 password := "" |};
     deps := None; rng := g; effect_runs := O |}.

(** First render and its effects. *)
Definition mount (g : Rng) : Widget := run_effect (initial g).

Inductive Event :=
| LengthSlide (n : Z)      (* setLength(parseInt(e.target.value)) *)
| NumberToggle             (* setNumberAllowed(prev => !prev) *)
| CharToggle               (* setCharAllowed(prev => !prev) *)
| RegenerateClick.         (* onClick={passwordGenerator} *)

Definition with_cells (c : Cells) (w : Widget) : Widget :=
  {| cells := c; deps := deps w; rng := rng w; effect_runs := effect_runs w |}.

Definition handle (w : Widget) (e : Event) : Widget :=
  let c := cells w in
  match e with
  | LengthSlide n =>
      with_cells {| length := n; numberAllowed := numberAllowed c;
                    charAllowed := charAllowed c; password := password c |} w
  | NumberToggle =>
      with_cells {| length := length c; numberAllowed := negb (numberAllowed c);
                    charAllowed := charAllowed c; password := password c |} w
  | CharToggle =>
      with_cells {| length := length c; numberAllowed := numberAllowed c;
                    charAllowed := negb (charAllowed c); password := password c |} w
  | RegenerateClick => generate w
  end.

Definition step (w : Widget) (e : Event) : Widget := run_effect (handle w e).

(** The characters of a string. *)
Definition chars (s : string) : list ascii := list_ascii_of_string s.

(** An uppercase or lowercase Latin letter. *)
Definition latin_letter (c : ascii) : bool :=
  let n := nat_of_ascii c in
  ((65 <=? n)%nat && (n <=? 90)%nat) || ((97 <=? n)%nat && (n <=? 122)%nat).

(** A string of [n] characters, each a letter of [upper_lower]. *)
Definition letters_only (n : nat) (s : string) : Prop :=
  String.length s = n
  /\ Forall (fun a => In a (chars upper_lower) /\ latin_letter a = true) (chars s).

(** The inputs of Scenario C. *)
Definition inputs_C (c : Cells) : Prop :=
  length c = 6%Z /\ numberAllowed c = false /\ charAllowed c = false.

End PasswordGenerator.

(* ================================================================== *)
(** ** Promise chains *)
(* ================================================================== *)

Module Promise.

Inductive error := TypeError | SyntaxError | NetworkFailure.

(** How a promise settles. *)
Inductive settled (A : Type) :=
| Fulfilled (a : A)
| Rejected (e : error).
Arguments Fulfilled {A} a.
Arguments Rejected {A} e.

(** A promise reaction over a state [S]: the handlers of a chain run one
    after the other when the chain settles, and may write [S]. *)
Definition task (S A : Type) := S -> settled A * S.

Definition resolve {S A} (a : A) : task S A := fun s => (Fulfilled a, s).

Definition reject {S A} (e : error) : task S A := fun s => (Rejected e, s).

(** [p.then(f)]: [f] runs on fulfilment, a rejection passes through. *)
Definition then_ {S A B} (p : task S A) (f : A -> task S B) : task S B :=
  fun s =>
    match p s with
    | (Fulfilled a, s') => f a s'
    | (Rejected e, s') => (Rejected e, s')
    end.

(** [p.catch(h)]: [h] runs on rejection, a fulfilment passes through. *)
Definition catch_ {S A} (p : task S A) (h : error -> task S A) : task S A :=
  fun s =>
    match p s with
    | (Fulfilled a, s') => (Fulfilled a, s')
    | (Rejected e, s') => h e s'
    end.

End Promise.

(* ================================================================== *)
(** ** The hook useCurrencyInfo (10_currencyConvertor/src/hooks) *)
(* ================================================================== *)

Module UseCurrencyInfo.
Import JS Promise.

(** What the network answers to one request: [fetch] rejects, or resolves
    with a response whose [json()] yields the parsed body, or rejects when
    the body is no JSON ([body = None]). *)
Inductive FetchOutcome :=
| NetworkError
| Response (status : Z) (body : option value).

(** The currency-rate endpoint: an outcome for every URL. *)
Definition Endpoint := string -> FetchOutcome.

(** The state of one use of the hook. [pending] maps an in-flight request
    to the [currency] its handlers close over. *)
Record Hook := {
  data : Ref;
  deps : option string;
  pending : gmap nat string;
  next_task : nat;
  alloc : nat
}.

(** [useState({})] before the first effect. *)
Definition initial : Hook :=
  {| data := {| ref := 0; val := empty_object |}; deps := None;
     pending := ∅; next_task := 0; alloc := 1 |}.

(** The request URL of line 21. *)
Definition url (currency : string) : string :=
  "https://cdn.jsdelivr.net/npm/@fawazahmed0/currency-api@latest/v1/currencies/"
  +:+ toLowerCase currency +:+ ".json".

(** The updates of the state that calls of [setData] have queued, in call
    order: the arguments of the calls. *)
Definition Queue := list value.

(** [setData(v)]: the call queues the update and returns. *)
Definition setData (v : value) : task Queue unit :=
  fun queue => (Fulfilled (), (queue ++ [v])%list).

(** [fetch(url)] as it settles. *)
Definition fetched (o : FetchOutcome) : task Queue (Z * option value) :=
  match o with
  | NetworkError => reject NetworkFailure
  | Response status body => resolve (status, body)
  end.

(** [res.json()] *)
Definition json (res : Z * option value) : task Queue value :=
  match snd res with
  | Some v => resolve v
  | None => reject SyntaxError
  end.

(** [res => setData(res[currency.toLowerCase()] || {})] *)
Definition extract `{Host} (currency : string) (res : value) : task Queue unit :=
  match get res (toLowerCase currency) with
  | Some v => setData (or_else v empty_object)
  | None => reject TypeError
  end.

(** [err => { console.error(...); setData({}) }] *)
Definition on_error (err : error) : task Queue unit := setData empty_object.

(** The chain of lines 21-44, run when the request settles with [o]. *)
Definition chain `{Host} (currency : string) (o : FetchOutcome) : task Queue unit :=
  catch_ (then_ (then_ (fetched o) json) (extract currency)) on_error.

(** The state after the write of [v], a primitive or an object newly
    allocated. *)
Definition store (v : value) (h : Hook) : Hook :=
  {| data := {| ref := alloc h; val := v |}; deps := deps h;
     pending := pending h; next_task := next_task h;
     alloc := S (alloc h) |}.

(** What the render after [setData(v)] makes of the queued update: the
    setter of [useState] takes a function for an updater, calls it with
    the state, and what the call returns is the new state, the old state
    itself when the call returns its argument; any other [v] is the new
    state. [None]: the updater throws, and the render with it. A value
    that is written gets a new allocation stamp: it is a primitive (the
    stamp is ignored), a part of the body just parsed, the literal [{}],
    or what the call has made. *)
Definition update `{Host} (h : Hook) (v : value) : option Hook :=
  match v with
  | VFun f =>
      match call f (val (data h)) with
      | Throws => None
      | ReturnsArgument => Some h
      | Returns v' => Some (store v' h)
      end
  | _ => Some (store v h)
  end.

(** The queued updates, processed in call order. *)
Definition flush `{Host} (queue : Queue) (h : Hook) : option Hook :=
  foldl (fun acc v => h' ← acc; update h' v) (Some h) queue.

(** The body of the effect: issue the request and attach the chain. *)
Definition effect (currency : string) (h : Hook) : Hook :=
  {| data := data h; deps := Some currency;
     pending := <[next_task h := currency]> (pending h);
     next_task := S (next_task h); alloc := alloc h |}.

(** [[currency]] differs from the array of the previous render. *)
Definition changed (prev : option string) (currency : string) : bool :=
  match prev with
  | None => true
  | Some c => negb (String.eqb c currency)
  end.

(** [useEffect(..., [currency])] after a render with argument [currency]. *)
Definition run_effect (currency : string) (h : Hook) : Hook :=
  if changed (deps h) currency then effect currency h else h.

(** The hook without the request [id], which has settled. *)
Definition settled_request (id : nat) (h : Hook) : Hook :=
  {| data := data h; deps := deps h; pending := delete id (pending h);
     next_task := next_task h; alloc := alloc h |}.

(** Request [id] settles with [o]: its chain runs with the [currency] it
    closed over, and the render that follows processes the updates it has
    queued. No other request is looked at. [None]: that render throws. *)
Definition settle `{Host} (id : nat) (o : FetchOutcome) (h : Hook) : option Hook :=
  match pending h !! id with
  | Some currency => flush (snd (chain currency o [])) (settled_request id h)
  | None => Some h
  end.

(** The network read fails: [fetch] rejects, the body is no JSON, the body
    is [null], or the body has no truthy entry for the lowercased key. *)
Definition read_fails `{Host} (currency : string) (o : FetchOutcome) : bool :=
  match o with
  | NetworkError => true
  | Response _ None => true
  | Response _ (Some res) =>
      match get res (toLowerCase currency) with
      | Some v => negb (to_boolean v)
      | None => true
      end
  end.

(** The value a chain hands to [setData]: the chain makes one call. *)
Definition written `{Host} (currency : string) (o : FetchOutcome) : value :=
  match snd (chain currency o []) with
  | v :: _ => v
  | [] => VUndefined
  end.

(** The own entry of a parsed object under the lowercased key. *)
Definition own_entry (currency : string) (o : FetchOutcome) : option value :=
  match o with
  | Response _ (Some (VObj props)) => props !! toLowerCase currency
  | _ => None
  end.

(** A fetch for [currency] is issued and answered by the endpoint [net]
    before anything else happens. *)
Definition fetchFor `{Host} (net : Endpoint) (currency : string) (h : Hook)
    : option Hook :=
  settle (next_task h) (net (url currency)) (effect currency h).

End UseCurrencyInfo.

(* ================================================================== *)
(** ** The component App (10_currencyConvertor/src/App.jsx) *)
(* ================================================================== *)

Module CurrencyConverter.
Import JS Promise UseCurrencyInfo.

(** The four [useState] cells of [App]. *)
Record Cells := {
  amount : float;
  from : string;
  to : string;
  convertedAmount : float
}.

(** A call of one of the four setters. *)
Inductive Update :=
| SetAmount (x : float)
| SetFrom (c : string)
| SetTo (c : string)
| SetConvertedAmount (x : float).

Definition apply_update (c : Cells) (u : Update) : Cells :=
  match u with
  | SetAmount x =>
      {| amount := x; from := from c; to := to c; convertedAmount := convertedAmount c |}
  | SetFrom f =>
      {| amount := amount c; from := f; to := to c; convertedAmount := convertedAmount c |}
  | SetTo t =>
      {| amount := amount c; from := from c; to := t; convertedAmount := convertedAmount c |}
  | SetConvertedAmount x =>
      {| amount := amount c; from := from c; to := to c; convertedAmount := x |}
  end.

(** The updates queued by one handler or effect, applied in call order
    before the next render. *)
Definition apply_updates (us : list Update) (c : Cells) : Cells :=
  fold_left apply_update us c.

(** [swap], closed over the cells [c] of the render that created it. *)
Definition swap (c : Cells) : list Update :=
  [ SetFrom (to c); SetTo (from c);
    SetConvertedAmount (amount c); SetAmount (convertedAmount c) ].

(** [convert]: no guard, [None] is the TypeError of the property read. *)
Definition convert `{Host} (c : Cells) (currencyInfo : value) : option (list Update) :=
  r ← get currencyInfo (to c);
  Some [ SetConvertedAmount (mul (amount c) r) ].

(** The body of the effect of lines 50-56. *)
Definition auto_convert `{Host} (c : Cells) (currencyInfo : value) : option (list Update) :=
  r ← get currencyInfo (to c);
  if to_boolean r then Some [ SetConvertedAmount (mul (amount c) r) ]
  else Some [].

(** The guard of the effect fails: [currencyInfo[to]] is falsy. *)
Definition unready `{Host} (c : Cells) (currencyInfo : value) : bool :=
  match get currencyInfo (to c) with
  | Some r => negb (to_boolean r)
  | None => false
  end.

(** [r.toFixed(4)]: a number has the method; on any other receiver the
    call throws unless the host answers the property with a function. *)
Definition toFixed `{Host} (r : value) : option unit :=
  match r with
  | VNum _ => Some ()
  | _ => f ← get r "toFixed";
         match f with VFun _ => Some () | _ => None end
  end.

(** The fallible expressions of the JSX: [Object.keys(currencyInfo)] and
    [currencyInfo[to]] throw on the same receivers, and
    [currencyInfo[to] && ... currencyInfo[to].toFixed(4)]. [None] is an
    uncaught exception: the component is torn down. *)
Definition render `{Host} (c : Cells) (currencyInfo : value) : option unit :=
  r ← get currencyInfo (to c);
  if to_boolean r then toFixed r else Some ().

(** A run of an effect, with the values of the render it ran after. *)
Inductive Run :=
| FetchRun (currency : string)
| ConvertRun (a : float) (info : Ref) (t : string).

(** One mounted [App]. *)
Record Widget := {
  cells : Cells;
  hook : Hook;
  convert_deps : option (float * Ref * string);
  log : list Run
}.

(** [[amount, currencyInfo, to]] differs from the previous array. *)
Definition convert_changed (prev : option (float * Ref * string))
    (c : Cells) (info : Ref) : bool :=
  match prev with
  | None => true
  | Some (a, i, t) =>
      negb (PrimFloat.Leibniz.eqb a (amount c) && object_is i info && String.eqb t (to c))
  end.

(** A render and the effects after it, in hook order: the hook's effect,
    then the effect of [App]; both see the cells of this render. *)
Definition commit `{Host} (w : Widget) : option Widget :=
  let c := cells w in
  let info := data (hook w) in
  _ ← render c (val info);
  let fetch_runs := changed (deps (hook w)) (from c) in
  let convert_runs := convert_changed (convert_deps w) c info in
  us ← (if convert_runs then auto_convert c (val info) else Some []);
  Some {| cells := apply_updates us c;
          hook := run_effect (from c) (hook w);
          convert_deps := Some (amount c, info, to c);
          log := log w ++ (if fetch_runs then [FetchRun (from c)] else [])
                       ++ (if convert_runs then [ConvertRun (amount c) info (to c)] else []) |}.

Definition initial : Widget :=
  {| cells := {| amount := 1; from := "usd"; to := "inr"; convertedAmount := 0 |};
     hook := UseCurrencyInfo.initial;
     convert_deps := None;
     log := [] |}.

(** First render and its effects. *)
Definition mount `{Host} : option Widget := commit initial.

Inductive Event :=
| AmountInput (x : float)     (* onAmountChange(Number(e.target.value)) *)
| FromSelect (c : string)     (* onCurrencyChange of the first InputBox *)
| ToSelect (c : string)       (* onCurrencyChange of the second InputBox *)
| SwapClick
| ConvertClick
| FetchSettles (id : nat) (o : FetchOutcome).

Definition with_cells (c : Cells) (w : Widget) : Widget :=
  {| cells := c; hook := hook w; convert_deps := convert_deps w; log := log w |}.

(** The state after the handler of [e] has run, as the next render finds
    it. [None]: the handler throws, or a queued update of the hook does
    when that render processes it. *)
Definition handle `{Host} (w : Widget) (e : Event) : option Widget :=
  let c := cells w in
  match e with
  | AmountInput x => Some (with_cells (apply_updates [SetAmount x] c) w)
  | FromSelect f => Some (with_cells (apply_updates [SetFrom f] c) w)
  | ToSelect t => Some (with_cells (apply_updates [SetTo t] c) w)
  | SwapClick => Some (with_cells (apply_updates (swap c) c) w)
  | ConvertClick =>
      us ← convert c (val (data (hook w)));
      Some (with_cells (apply_updates us c) w)
  | FetchSettles id o =>
      h ← settle id o (hook w);
      Some {| cells := c; hook := h;
              convert_deps := convert_deps w; log := log w |}
  end.

(** One event: its handler, then the render and the effects. *)
Definition step `{Host} (w : Widget) (e : Event) : option Widget :=
  w' ← handle w e; commit w'.

(** A sequence of events. *)
Fixpoint run `{Host} (w : Widget) (es : list Event) : option Widget :=
  match es with
  | [] => Some w
  | e :: es' => w' ← step w e; run w' es'
  end.

(** Every effect has seen the cells of the last render. *)
Definition stable (w : Widget) : Prop :=
  convert_deps w = Some (amount (cells w), data (hook w), to (cells w))
  /\ deps (hook w) = Some (from (cells w)).

(** The updates of the effect of [App] in a render that reads [r] for
    [currencyInfo[to]]. *)
Definition effect_updates `{Host} (runs : bool) (c : Cells) (r : value) : list Update :=
  if runs && to_boolean r then [ SetConvertedAmount (mul (amount c) r) ] else [].

(** The widget a successful render and its effects leave. *)
Definition committed `{Host} (w : Widget) (r : value) : Widget :=
  let c := cells w in
  let info := data (hook w) in
  let runs := convert_changed (convert_deps w) c info in
  {| cells := apply_updates (effect_updates runs c r) c;
     hook := run_effect (from c) (hook w);
     convert_deps := Some (amount c, info, to c);
     log := log w ++ (if changed (deps (hook w)) (from c) then [FetchRun (from c)] else [])
                  ++ (if runs then [ConvertRun (amount c) info (to c)] else []) |}.

(** How many of the declared inputs of the effect of [App] differ between
    two renders. *)
Definition changed_inputs (c c' : Cells) (i i' : Ref) : nat :=
  (if PrimFloat.Leibniz.eqb (amount c) (amount c') then 0 else 1)
  + (if object_is i i' then 0 else 1)
  + (if String.eqb (to c) (to c') then 0 else 1).

(** How often the effect of [App] ran in a log. *)
Fixpoint convert_runs (l : list Run) : nat :=
  match l with
  | [] => 0
  | ConvertRun _ _ _ :: l' => S (convert_runs l')
  | FetchRun _ :: l' => convert_runs l'
  end.

End CurrencyConverter.

(* ================================================================== *)
(** ** The reactive store of the specification *)
(* ================================================================== *)

Module Store.

Inductive error := UnknownCellError | CycleError.

Section Store.
Context {T : Type}.

(** Modelled from the spec: a cell of the store of section 3, a value and
    the version that every write increments. The repository has no store:
    its widgets keep their cells in the hooks of the UI framework. *)
Record Cell := { value : T; version : nat }.

(** Modelled from the spec: a derivation of section 3, the declared input
    names, the one output name and the function; [fn] answers [None] when
    the guard of section 4.2 skips the recomputation. *)
Record Derivation := {
  inputs : list string;
  output : string;
  fn : list T -> option T
}.

(** Modelled from the spec: the store of section 3, the cells by name and
    the registered derivations in registration order. *)
Record Store := {
  cells : gmap string Cell;
  subscribers : list Derivation
}.

(** Modelled from the spec: [create] of section 4.1, one cell per entry at
    version 0. *)
Definition create (initialValues : gmap string T) : Store :=
  {| cells := (fun v => {| value := v; version := 0 |}) <$> initialValues;
     subscribers := [] |}.

(** Modelled from the spec: [get] of section 4.1. *)
Definition get (st : Store) (name : string) : error + T :=
  match cells st !! name with
  | Some c => inr (value c)
  | None => inl UnknownCellError
  end.

(** Modelled from the spec: the read of a derivation's declared inputs
    (section 3), their current values in order; the repository has no
    counterpart. *)
Fixpoint read (st : Store) (names : list string) : error + list T :=
  match names with
  | [] => inr []
  | n :: ns =>
      match get st n, read st ns with
      | inr x, inr xs => inr (x :: xs)
      | inl e, _ => inl e
      | _, inl e => inl e
      end
  end.

(** Modelled from the spec: the write of [set] (section 4.1), the value
    overwritten and the version incremented; the repository has no
    counterpart. *)
Definition write (name : string) (v : T) (c : Cell) (st : Store) : Store :=
  {| cells := <[name := {| value := v; version := S (version c) |}]> (cells st);
     subscribers := subscribers st |}.

(** Modelled from the spec: the notification of one subscriber [d] after
    a write of [name], section 4.1 and 4.2. A derivation whose declared
    inputs include [name] reads them, recomputes and sets its output with
    [set_rec], the set of the same synchronous pass; an error aborts what
    is left of the pass. The repository has no counterpart. *)
Definition notify (set_rec : Store -> string -> T -> option (error + Store))
    (name : string) (acc : option (error + Store)) (d : Derivation)
    : option (error + Store) :=
  match acc with
  | Some (inr s) =>
      if bool_decide (name ∈ inputs d) then
        match read s (inputs d) with
        | inl e => Some (inl e)
        | inr args =>
            match fn d args with
            | Some r => set_rec s (output d) r
            | None => Some (inr s)
            end
        end
      else acc
  | _ => acc
  end.

(** Modelled from the spec: [set] of section 4.1 inside one synchronous
    pass. [updating] lists the cells being updated in the pass; a set of
    one of them is the CycleError. After the write every subscriber is
    notified, in registration order. [fuel] bounds the depth of the
    cascade, [None] is a cascade deeper than [fuel]. The repository has no
    counterpart. *)
Fixpoint set_pass (fuel : nat) (updating : list string) (st : Store)
    (name : string) (v : T) : option (error + Store) :=
  match fuel with
  | O => None
  | S fuel' =>
      if bool_decide (name ∈ updating) then Some (inl CycleError)
      else
        match cells st !! name with
        | None => Some (inl UnknownCellError)
        | Some c =>
            foldl (notify (set_pass fuel' (name :: updating)) name)
              (Some (inr (write name v c st))) (subscribers st)
        end
  end.

(** Modelled from the spec: a derivation that writes (Scenario D), its
    guard never skips. *)
Definition writes (d : Derivation) : Prop := forall args, is_Some (fn d args).

(** Modelled from the spec: every name a derivation declares is a cell of
    the store, so that no read or set of it is an UnknownCellError. *)
Definition declared (st : Store) (d : Derivation) : Prop :=
  (forall n, n ∈ inputs d -> is_Some (cells st !! n))
  /\ is_Some (cells st !! output d).

(** Modelled from the spec: the store of Scenario D, whose subscribers
    are the two derivations [d1] and [d2], registered in this order, and
    name cells only. *)
Definition wired (d1 d2 : Derivation) (st : Store) : Prop :=
  subscribers st = [d1; d2] /\ declared st d1 /\ declared st d2.

End Store.

Arguments Cell : clear implicits.
Arguments Derivation : clear implicits.
Arguments Store : clear implicits.

End Store.

(* ================================================================== *)
(** ** Scenario data *)
(* ================================================================== *)

Module Scenario.
Import JS Promise UseCurrencyInfo CurrencyConverter.
Local Open Scope list_scope.

(** Rates as the endpoint serves them. *)
Definition usd_rates : value := VObj {[ "inr" := VNum 83.5; "usd" := VNum 1 ]}.
Definition eur_rates : value := VObj {[ "usd" := VNum 1.125 ]}.
Definition gbp_rates : value := VObj {[ "usd" := VNum 1.25 ]}.

Definition usd_body : value := VObj {[ "date" := VStr "2024-03-06"; "usd" := usd_rates ]}.
Definition eur_body : value := VObj {[ "date" := VStr "2024-03-06"; "eur" := eur_rates ]}.
Definition gbp_body : value := VObj {[ "date" := VStr "2024-03-06"; "gbp" := gbp_rates ]}.

(** The rates of Scenario A. *)
Definition inr_only : value := VObj {[ "inr" := VNum 83.5 ]}.

(** The body that carries them for "usd". *)
Definition inr_only_body : value := VObj {[ "usd" := inr_only ]}.

(** The log of an [App] after its mount. *)
Definition mount_log : list Run :=
  [ FetchRun "usd"; ConvertRun 1 {| ref := 0; val := empty_object |} "inr" ].

(** An [App] after its mount: the rates have not arrived, the cell holds
    the empty mapping. *)
Definition awaiting_rates : Widget :=
  {| cells := {| amount := 1; from := "usd"; to := "inr"; convertedAmount := 0 |};
     hook := {| data := {| ref := 0; val := empty_object |}; deps := Some "usd";
                pending := {[ 0%nat := "usd" ]}; next_task := 1; alloc := 1 |};
     convert_deps := Some (1%float, {| ref := 0; val := empty_object |}, "inr");
     log := mount_log |}.

(** An [App] after its mount and the arrival of the rates of Scenario A:
    its effects have seen [amount = 1], these rates and [to = "inr"]. *)
Definition scenario_A : Widget :=
  {| cells := {| amount := 1; from := "usd"; to := "inr"; convertedAmount := 83.5 |};
     hook := {| data := {| ref := 1; val := inr_only |}; deps := Some "usd";
                pending := ∅; next_task := 1; alloc := 2 |};
     convert_deps := Some (1%float, {| ref := 1; val := inr_only |}, "inr");
     log := mount_log ++ [ ConvertRun 1 {| ref := 1; val := inr_only |} "inr" ] |}.

(** An [App] after its mount and the arrival of the rates for "usd",
    showing 1 usd = 83.5 inr. *)
Definition usd_to_inr : Widget :=
  {| cells := {| amount := 1; from := "usd"; to := "inr"; convertedAmount := 83.5 |};
     hook := {| data := {| ref := 1; val := usd_rates |}; deps := Some "usd";
                pending := ∅; next_task := 1; alloc := 2 |};
     convert_deps := Some (1%float, {| ref := 1; val := usd_rates |}, "inr");
     log := mount_log ++ [ ConvertRun 1 {| ref := 1; val := usd_rates |} "inr" ] |}.

(** A host whose parsed objects inherit [constructor], the function
    [Object], which returns the object it is given; nothing else is
    answered. *)
Definition object_host : Host :=
  {| proto_get := fun v k =>
       match v with
       | VObj _ => if String.eqb k "constructor" then VFun "Object" else VUndefined
       | _ => VUndefined
       end;
     coerce_number := fun _ => nan;
     call := fun f x =>
       if String.eqb f "Object" && negb (is_primitive x) then ReturnsArgument
       else Throws |}.

(** An [App] after its mount and the selection of "constructor" as the
    source currency: two requests are in flight. *)
Definition asked_constructor : Widget :=
  {| cells := {| amount := 1; from := "constructor"; to := "inr"; convertedAmount := 0 |};
     hook := {| data := {| ref := 0; val := empty_object |};
                deps := Some "constructor";
                pending := {[ 0%nat := "usd"; 1%nat := "constructor" ]};
                next_task := 2; alloc := 1 |};
     convert_deps := Some (1%float, {| ref := 0; val := empty_object |}, "inr");
     log := mount_log ++ [ FetchRun "constructor" ] |}.

(** An error page served with status 500 whose body parses and carries an
    entry for the key. *)
Definition xyz_body : value := VObj {[ "xyz" := VObj {[ "eur" := VNum 1 ]} ]}.

(** A random source that always answers one half, and one that answers
    zero six times and one half from then on. *)
Definition half : PasswordGenerator.Rng := fun _ => 0.5%float.
Definition zero_then_half : PasswordGenerator.Rng :=
  fun n => if (n <? 6)%nat then 0%float else 0.5%float.

(** A password generator showing the inputs of Scenario C. *)
Definition scenario_C (g : PasswordGenerator.Rng) : PasswordGenerator.Widget :=
  {| PasswordGenerator.cells :=
       {| PasswordGenerator.length := 6; PasswordGenerator.numberAllowed := false;
          PasswordGenerator.charAllowed := false; PasswordGenerator.password := "" |};
     PasswordGenerator.deps := Some (6%Z, false, false);
     PasswordGenerator.rng := g;
     PasswordGenerator.effect_runs := 1 |}.

(** Scenario D: two derivations, each writing the input of the other. *)
Definition successor_into (i o : string) : Store.Derivation Z :=
  {| Store.inputs := [i]; Store.output := o;
     Store.fn := fun args => Some (match args with [x] => x + 1 | _ => 0 end)%Z |}.

Definition scenario_D : Store.Store Z :=
  {| Store.cells := {[ "a" := {| Store.value := 0%Z; Store.version := 0 |};
                       "b" := {| Store.value := 0%Z; Store.version := 0 |} ]};
     Store.subscribers := [ successor_into "a" "b"; successor_into "b" "a" ] |}.

End Scenario.

(* ================================================================== *)
(** ** The rest of the password generator component *)
(* ================================================================== *)

Module PasswordPanel.
Import JS PasswordGenerator.

(** A sequence of events on the mounted component. *)
Fixpoint run (w : Widget) (es : list Event) : Widget :=
  match es with
  | [] => w
  | e :: es' => run (step w e) es'
  end.

(** What [getPasswordStrength] returns. *)
Record Strength := { text : string; color : string }.

(** [getPasswordStrength], on the [length] and the two flags of the
    render. *)
Definition getPasswordStrength (length : Z) (numberAllowed charAllowed : bool)
    : Strength :=
  if (16 <=? length)%Z && numberAllowed && charAllowed then
    {| text := "Very Strong"; color := "text-green-400" |}
  else if (12 <=? length)%Z && (numberAllowed || charAllowed) then
    {| text := "Strong"; color := "text-blue-400" |}
  else if (8 <=? length)%Z then
    {| text := "Medium"; color := "text-yellow-400" |}
  else
    {| text := "Weak"; color := "text-red-400" |}.

(** The four answers in increasing order. *)
Definition strength_rank (s : Strength) : nat :=
  if String.eqb (text s) "Very Strong" then 3
  else if String.eqb (text s) "Strong" then 2
  else if String.eqb (text s) "Medium" then 1
  else 0.

(** The index of the first occurrence of [a] in [s] ([length s] when there
    is none). *)
Fixpoint index_of (a : ascii) (s : string) : nat :=
  match s with
  | EmptyString => O
  | String b s' => if Ascii.eqb a b then O else S (index_of a s')
  end.

(** The number [(2 i + 1) / (2 len)], in the middle of the [i]-th of the
    [len] equal parts of [0, 1). *)
Definition draw (len i : nat) : float :=
  (PrimFloat.of_uint63 (Uint63.of_Z (2 * Z.of_nat i + 1))
   / PrimFloat.of_uint63 (Uint63.of_Z (2 * Z.of_nat len)))%float.

(** The random source whose [k]-th answer is [draw len i] for the [k]-th
    index [i] of the list, and 0 once the list is used up. *)
Definition draws (len : nat) (idxs : list nat) : Rng :=
  fun k =>
    match nth_error idxs k with
    | Some i => draw len i
    | None => 0%float
    end.

(** [draw len i] is in [0, 1) and draws the index [i] of a string of
    [len] characters. *)
Definition draws_index (len i : nat) : bool :=
  (0 <=? draw len i)%float && (draw len i <? 1)%float
  && match Math_floor (draw len i * PrimFloat.of_uint63 (Uint63.of_Z (Z.of_nat len)))%float with
     | WholeNumber j => Z.eqb j (Z.of_nat i)
     | _ => false
     end.

(** What [window.navigator.clipboard] is at a click: absent (the page is
    not served in a secure context), or present with a [writeText] whose
    promise fulfils or rejects. *)
Inductive ClipboardApi := NoClipboard | WriteFulfils | WriteRejects.

(** The component with the state of [copyPasswordToClipboard]: the
    [copied] cell, the system clipboard, and the number of timeouts set by
    [setTimeout] that have not fired. *)
Record Panel := {
  widget : Widget;
  copied : bool;
  clipboard : option string;
  timeouts : nat
}.

Definition mount_panel (g : Rng) : Panel :=
  {| widget := mount g; copied := false; clipboard := None; timeouts := O |}.

(** [copyPasswordToClipboard], closed over the [password] of the render
    ([useCallback(..., [password])]). The selection calls on [passwordRef]
    change no state. [None] is the TypeError of [clipboard.writeText] on an
    absent clipboard: it is thrown before [setCopied], nothing is queued.
    The promise of [writeText] is not awaited: [setCopied(true)] and
    [setTimeout] follow whatever becomes of it. The render after
    [setCopied] is followed by the effect of the component. *)
Definition copyPasswordToClipboard (api : ClipboardApi) (p : Panel) : option Panel :=
  let password := password (cells (widget p)) in
  match api with
  | NoClipboard => None
  | WriteFulfils =>
      Some {| widget := run_effect (widget p); copied := true;
              clipboard := Some password; timeouts := S (timeouts p) |}
  | WriteRejects =>
      Some {| widget := run_effect (widget p); copied := true;
              clipboard := clipboard p; timeouts := S (timeouts p) |}
  end.

(** A click on the copy button: an exception in the handler leaves the
    component as it was. *)
Definition copy_click (api : ClipboardApi) (p : Panel) : Panel :=
  match copyPasswordToClipboard api p with
  | Some p' => p'
  | None => p
  end.

(** One of the pending timeouts fires: [() => setCopied(false)]. *)
Definition timeout_fires (p : Panel) : Panel :=
  match timeouts p with
  | O => p
  | S n =>
      {| widget := run_effect (widget p); copied := false;
         clipboard := clipboard p; timeouts := n |}
  end.

(** An event of the generator on the panel. *)
Definition panel_step (p : Panel) (e : Event) : Panel :=
  {| widget := step (widget p) e; copied := copied p;
     clipboard := clipboard p; timeouts := timeouts p |}.

(** The password on display agrees with the settings on display. *)
Definition consistent (w : Widget) : Prop :=
  deps w = Some (deps_of (cells w))
  /\ String.length (password (cells w)) = Z.to_nat (length (cells w))
  /\ Forall (fun a => In a (chars (pool (numberAllowed (cells w))
                                      (charAllowed (cells w)))))
       (chars (password (cells w))).

End PasswordPanel.

(* ================================================================== *)
(** ** Histories of the hook and of App *)
(* ================================================================== *)

Module History.
Import JS Promise UseCurrencyInfo CurrencyConverter.

(** What happens to one use of the hook: the component renders with an
    argument, and the effect follows; or a request settles, and the render
    it schedules processes the update. *)
Inductive HookEvent :=
| Render (currency : string)
| Settles (id : nat) (o : FetchOutcome).

Definition hook_step `{Host} (h : Hook) (e : HookEvent) : option Hook :=
  match e with
  | Render currency => Some (run_effect currency h)
  | Settles id o => settle id o h
  end.

(** A history; [None] when one of its renders throws. *)
Fixpoint hook_run `{Host} (h : Hook) (es : list HookEvent) : option Hook :=
  match es with
  | [] => Some h
  | e :: es' => h' ← hook_step h e; hook_run h' es'
  end.

(** The arguments of the renders of a history, and the outcomes of the
    requests that settle in it. *)
Fixpoint rendered (es : list HookEvent) : list string :=
  match es with
  | [] => []
  | Render currency :: es' => currency :: rendered es'
  | Settles _ _ :: es' => rendered es'
  end.

Fixpoint outcomes (es : list HookEvent) : list FetchOutcome :=
  match es with
  | [] => []
  | Render _ :: es' => outcomes es'
  | Settles _ o :: es' => o :: outcomes es'
  end.

(** No response of the history has a function under a key of the
    history: [setData] is handed values to store, no updater. *)
Definition no_updater `{Host} (es : list HookEvent) : bool :=
  forallb (fun k => forallb (fun o => negb (is_function (written k o))) (outcomes es))
    (rendered es).

(** How often the argument of the hook differs from the argument of the
    render before, over the renders of a history; the first render after
    [prev = None] counts. *)
Fixpoint changes (prev : option string) (es : list HookEvent) : nat :=
  match es with
  | [] => 0
  | Render currency :: es' =>
      (if changed prev currency then 1 else 0) + changes (Some currency) es'
  | Settles _ _ :: es' => changes prev es'
  end.

(** Allocation stamps and request numbers in use are below the counters. *)
Definition fresh (h : Hook) : Prop :=
  (ref (data h) < alloc h)%nat
  /\ forall id k, pending h !! id = Some k -> (id < next_task h)%nat.

(** The cell [convertedAmount] shows the product whenever the rate read
    for [to] is truthy. *)
Definition shows_product `{Host} (w : Widget) : Prop :=
  forall r, get (val (data (hook w))) (to (cells w)) = Some r ->
            to_boolean r = true ->
            convertedAmount (cells w) = mul (amount (cells w)) r.

(** The expressions of the JSX evaluate on the widget. *)
Definition renders `{Host} (w : Widget) : Prop :=
  render (cells w) (val (data (hook w))) = Some ().

(** What holds of every widget the component reaches. *)
Definition invariant `{Host} (w : Widget) : Prop :=
  stable w /\ renders w /\ fresh (hook w) /\ shows_product w.

(** A widget that the mounted component reaches by a sequence of events. *)
Definition reachable `{Host} (w : Widget) : Prop :=
  exists w0 es, mount = Some w0 /\ run w0 es = Some w.

(** A mapping whose entries are numbers. *)
Definition numeric (v : value) : Prop :=
  exists m : gmap string value,
    v = VObj m /\ forall k x, m !! k = Some x -> exists f, x = VNum f.

(** A key that names no property a parsed object inherits, as is the
    case of the currency codes. *)
Definition uninherited `{Host} (k : string) : Prop :=
  forall m, proto_get (VObj m) k = VUndefined.

(** A body whose rate for "inr" is served as text. *)
Definition text_rate_body : value :=
  VObj {[ "usd" := VObj {[ "inr" := VStr "83.5" ]} ]}.

(** A history of the hook: mount at "usd", a render that changes nothing,
    a change to "eur", the answer for "usd", and the return to "usd". *)
Definition back_and_forth : list HookEvent :=
  [ Render "usd"; Render "usd"; Render "eur";
    Settles 0 (Response 200 (Some Scenario.usd_body)); Render "usd" ].

End History.

(* ================================================================== *)
(** * Properties *)
(* ================================================================== *)

(** ** The password generator *)

Module RoundingFacts.
Import SpecFloat Rounding.
Local Open Scope Z_scope.

Lemma digits2_bounds (p : positive) :
  2 ^ (Z.pos (digits2_pos p) - 1) <= Z.pos p < 2 ^ Z.pos (digits2_pos p).
Proof.
  induction p as [p IH|p IH|]; cbn [digits2_pos].
  - rewrite Pos2Z.inj_succ.
    replace (Z.succ (Z.pos (digits2_pos p)) - 1)
      with (Z.succ (Z.pos (digits2_pos p) - 1)) by lia.
    rewrite !Z.pow_succ_r by lia. lia.
  - rewrite Pos2Z.inj_succ.
    replace (Z.succ (Z.pos (digits2_pos p)) - 1)
      with (Z.succ (Z.pos (digits2_pos p) - 1)) by lia.
    rewrite !Z.pow_succ_r by lia. lia.
  - cbn. lia.
Qed.

Lemma Zdigits2_le (x N : Z) : 0 <= x < 2 ^ N -> 0 <= N -> 0 <= Zdigits2 x <= N.
Proof.
  intros [H0 Hx] HN. destruct x as [|p|p]; cbn [Zdigits2]; [lia| |lia].
  destruct (digits2_bounds p) as [Hlo _].
  split; [lia|].
  destruct (Z.le_gt_cases (Z.pos (digits2_pos p)) N) as [|Hgt]; [assumption|].
  exfalso.
  assert (2 ^ N <= 2 ^ (Z.pos (digits2_pos p) - 1)) by (apply Z.pow_le_mono_r; lia).
  lia.
Qed.

Lemma iter_pos_inv {A} (f : A -> A) (Inv : Z -> A -> Prop) :
  (forall j x, 0 <= j -> Inv j x -> Inv (j + 1) (f x)) ->
  forall n j x, 0 <= j -> Inv j x -> Inv (j + Z.pos n) (iter_pos f n x).
Proof.
  intros Hstep. induction n as [n IH|n IH|]; intros j x Hj Hx; cbn [iter_pos].
  - replace (j + Z.pos n~1) with ((j + 1 + Z.pos n) + Z.pos n) by lia.
    apply IH; [lia|]. apply IH; [lia|]. now apply Hstep.
  - replace (j + Z.pos n~0) with ((j + Z.pos n) + Z.pos n) by lia.
    apply IH; [lia|]. now apply IH.
  - now apply Hstep.
Qed.

Lemma shr_1_shifted (P j : Z) (mrs : shr_record) :
  0 <= P -> 0 <= j -> shifted P j mrs -> shifted P (j + 1) (shr_1 mrs).
Proof.
  intros HP Hj [Hm Hr]. destruct mrs as [m r s]. cbn [shr_m shr_r] in *.
  assert (Hpow : 0 < 2 ^ j) by (apply Z.pow_pos_nonneg; lia).
  assert (Hm0 : 0 <= m) by (subst m; apply Z.div_pos; lia).
  assert (Hdiv : P / 2 ^ (j + 1) = m / 2).
  { rewrite Z.pow_add_r, Z.pow_1_r by lia. rewrite <- Z.div_div by lia. now subst m. }
  assert (Hmod : P mod 2 ^ (j + 1) = P mod 2 ^ j + 2 ^ j * (m mod 2)).
  { rewrite Z.pow_add_r, Z.pow_1_r by lia. rewrite Z.rem_mul_r by lia. now subst m. }
  unfold shifted. rewrite Hdiv, Hmod.
  rewrite Z.pow_add_r, Z.pow_1_r by lia.
  assert (Hrem : 0 <= P mod 2 ^ j) by (apply Z.mod_pos_bound; lia).
  clear Hm Hr.
  destruct m as [|[p|p|]|p]; cbn [shr_1 shr_m shr_r]; try lia.
  - split; [reflexivity|discriminate].
  - split; [rewrite Pos2Z.inj_xI; apply Z.div_unique with 1; lia|].
    intros _. rewrite Pos2Z.inj_xI.
    replace ((2 * Z.pos p + 1) mod 2) with 1; [nia|].
    apply Z.mod_unique with (Z.pos p); lia.
  - split; [rewrite Pos2Z.inj_xO; apply Z.div_unique with 0; lia|discriminate].
  - split; [reflexivity|]. intros _. change (1 mod 2) with 1. nia.
Qed.

Lemma shr_shifted (P : Z) (k : positive) :
  0 <= P ->
  shifted P (Z.pos k)
    (iter_pos shr_1 k {| shr_m := P; shr_r := false; shr_s := false |}).
Proof.
  intros HP.
  change (Z.pos k) with (0 + Z.pos k).
  apply (iter_pos_inv shr_1 (shifted P)).
  - intros j x Hj. now apply shr_1_shifted.
  - lia.
  - split; cbn; [now rewrite Z.div_1_r|discriminate].
Qed.

(** [shr_fexp] on an exact mantissa that is not negative: a shift by some
    [k >= 0]. *)
Lemma shr_fexp_spec (M E : Z) :
  0 <= M ->
  exists k, k = Z.max 0 (fexp prec emax (Zdigits2 M + E) - E)
    /\ snd (shr_fexp prec emax M E loc_Exact) = E + k
    /\ shifted M k (fst (shr_fexp prec emax M E loc_Exact)).
Proof.
  intros HM. unfold shr_fexp, shr. cbn [shr_record_of_loc].
  destruct (fexp prec emax (Zdigits2 M + E) - E) as [|k|k] eqn:Ek.
  - exists 0. cbn. split; [reflexivity|]. split; [lia|].
    split; cbn; [now rewrite Z.div_1_r|discriminate].
  - exists (Z.pos k). cbn [fst snd]. split; [lia|]. split; [reflexivity|].
    now apply shr_shifted.
  - exists 0. cbn [fst snd]. split; [lia|]. split; [lia|].
    split; cbn; [now rewrite Z.div_1_r|discriminate].
Qed.

(** Rounding to nearest adds one only when the round bit is set. *)
Lemma round_nearest_even_le (q : Z) (mrs : shr_record) :
  round_nearest_even q (loc_of_shr_record mrs) = q
  \/ (round_nearest_even q (loc_of_shr_record mrs) = q + 1 /\ shr_r mrs = true).
Proof.
  destruct mrs as [m [|] [|]]; cbn; auto.
  destruct (Z.even q); auto.
Qed.

(** The rounded product of [m * 2^e < 1] and [ML * 2^EL], a number whose
    mantissa is no power of two, is below [ML * 2^EL]. *)
Lemma round_below (m ML : positive) (e EL : Z) :
  Z.pos m < 2 ^ (- e) -> Z.pos m < 2 ^ 53 -> -1074 <= e <= -52 ->
  2 ^ 52 < Z.pos ML < 2 ^ 53 -> -52 <= EL <= 0 ->
  match binary_round_aux prec emax false (Z.pos (m * ML)) (e + EL) loc_Exact with
  | S754_zero _ => True
  | S754_finite false m2 e2 =>
      0 <= Z.shiftl (Z.pos m2) e2 /\ Z.shiftl (Z.pos m2) e2 * 2 ^ (- EL) < Z.pos ML
  | _ => False
  end.
Proof.
  intros Hm Hm53 He HML HEL.
  set (P := Z.pos (m * ML)). set (E := e + EL).
  assert (HP : 0 <= P < 2 ^ 106).
  { unfold P. rewrite Pos2Z.inj_mul. change (2 ^ 106) with (2 ^ 53 * 2 ^ 53). nia. }
  unfold binary_round_aux.
  destruct (shr_fexp_spec P E) as (k & Hk & He1 & [Hq Hr]); [lia|].
  destruct (shr_fexp prec emax P E loc_Exact) as [mrs e1]. cbn [fst snd] in *.
  set (m1 := round_nearest_even (shr_m mrs) (loc_of_shr_record mrs)).
  assert (Hk0 : 0 <= k <= 53).
  { destruct (Zdigits2_le P 106) as [Hd0 Hd]; [lia|lia|].
    unfold fexp, SpecFloat.emin, prec, emax in Hk. unfold E in Hk. lia. }
  assert (Hpk : 0 < 2 ^ k) by (apply Z.pow_pos_nonneg; lia).
  assert (Hpk53 : 2 ^ k <= 2 ^ 53) by (apply Z.pow_le_mono_r; lia).
  assert (Hm1 : 0 <= m1 /\ 2 * (m1 * 2 ^ k) <= 2 * P + 2 ^ k).
  { pose proof (Z.div_mod P (2 ^ k)) as Hdm.
    pose proof (Z.mod_pos_bound P (2 ^ k) Hpk) as Hrem.
    assert (0 <= P / 2 ^ k) by (apply Z.div_pos; lia).
    destruct (round_nearest_even_le (shr_m mrs) mrs) as [Eq|[Eq Hrt]];
      fold m1 in Eq; rewrite Eq, Hq.
    - split; [lia|]. nia.
    - split; [lia|]. specialize (Hr Hrt). nia. }
  destruct Hm1 as [Hm10 Hm1].
  assert (Hm1lt : m1 < 2 ^ 107).
  { change (2 ^ 107) with (2 * 2 ^ 106). nia. }
  destruct (shr_fexp_spec m1 e1) as (k2 & Hk2 & He2 & [Hq2 _]); [lia|].
  destruct (shr_fexp prec emax m1 e1 loc_Exact) as [mrs2 e2]. cbn [fst snd] in *.
  assert (Hk20 : 0 <= k2 <= 54).
  { destruct (Zdigits2_le m1 107) as [Hd0 Hd]; [lia|lia|].
    unfold fexp, SpecFloat.emin, prec, emax in Hk2.
    unfold fexp, SpecFloat.emin, prec, emax in Hk. unfold E in *. lia. }
  assert (Hpk2 : 0 < 2 ^ k2) by (apply Z.pow_pos_nonneg; lia).
  assert (Hm2 : 0 <= shr_m mrs2 /\ shr_m mrs2 * 2 ^ k2 <= m1).
  { rewrite Hq2. split; [apply Z.div_pos; lia|].
    pose proof (Z.div_mod m1 (2 ^ k2)) as Hdm.
    pose proof (Z.mod_pos_bound m1 (2 ^ k2) Hpk2) as Hrem. nia. }
  destruct (shr_m mrs2) as [|m2|m2] eqn:Em2; [exact I| |lia].
  destruct Hm2 as [_ Hm2].
  assert (He2le : e2 <= 971).
  { unfold fexp, SpecFloat.emin, prec, emax in Hk.
    destruct (Zdigits2_le P 106) as [Hd0 Hd]; [lia|lia|]. unfold E in *. lia. }
  replace (e2 <=? emax - prec) with true
    by (symmetry; apply Z.leb_le; unfold emax, prec; lia).
  split; [apply Z.shiftl_nonneg; lia|].
  set (t := - e) in *. set (s := - EL).
  assert (Ht : 52 <= t <= 1074) by (unfold t; lia).
  assert (Hs : 0 <= s <= 52) by (unfold s; lia).
  assert (Hpt : 0 < 2 ^ t) by (apply Z.pow_pos_nonneg; lia).
  assert (Hps : 0 < 2 ^ s) by (apply Z.pow_pos_nonneg; lia).
  assert (HPle : P <= Z.pos ML * 2 ^ t - Z.pos ML).
  { unfold P. rewrite Pos2Z.inj_mul. nia. }
  assert (Hmain : Z.pos m2 * 2 ^ (k + k2) < Z.pos ML * 2 ^ t).
  { rewrite Z.pow_add_r by lia.
    assert (2 * (Z.pos m2 * 2 ^ k2 * 2 ^ k) <= 2 * (m1 * 2 ^ k)) by nia.
    change (2 ^ 53) with (2 * 2 ^ 52) in Hpk53. nia. }
  assert (Ee2 : e2 = k + k2 - (t + s)) by (unfold t, s, E in *; lia).
  clearbody t s. clear Hm He HEL.
  destruct (Z.le_gt_cases 0 e2) as [Hpos|Hneg].
  - rewrite Z.shiftl_mul_pow2 by lia.
    assert (Hsplit : 2 ^ (k + k2) = 2 ^ e2 * 2 ^ (t + s)).
    { rewrite <- Z.pow_add_r by lia. f_equal. lia. }
    rewrite Hsplit in Hmain. rewrite Z.pow_add_r in Hmain by lia.
    nia.
  - rewrite Z.shiftl_div_pow2 by lia.
    assert (Hsplit : 2 ^ (t + s) = 2 ^ (- e2) * 2 ^ (k + k2)).
    { rewrite <- Z.pow_add_r by lia. f_equal. lia. }
    assert (Hpe : 0 < 2 ^ (- e2)) by (apply Z.pow_pos_nonneg; lia).
    assert (Hpkk : 0 < 2 ^ (k + k2)) by (apply Z.pow_pos_nonneg; lia).
    rewrite Z.pow_add_r in Hsplit by lia.
    pose proof (Z.div_mod (Z.pos m2) (2 ^ (- e2))) as Hdm.
    pose proof (Z.mod_pos_bound (Z.pos m2) (2 ^ (- e2)) Hpe) as Hrem.
    set (i := Z.pos m2 / 2 ^ (- e2)) in *.
    destruct (Z.lt_ge_cases (i * 2 ^ s) (Z.pos ML)) as [|Hge]; [assumption|exfalso].
    assert (H1 : Z.pos ML * 2 ^ t <= i * 2 ^ s * 2 ^ t)
      by (apply Z.mul_le_mono_nonneg_r; lia).
    assert (H2 : i * 2 ^ s * 2 ^ t = i * 2 ^ (- e2) * 2 ^ (k + k2)).
    { replace (i * 2 ^ s * 2 ^ t) with (i * (2 ^ t * 2 ^ s)) by ring.
      rewrite Hsplit. ring. }
    assert (H3 : i * 2 ^ (- e2) * 2 ^ (k + k2) <= Z.pos m2 * 2 ^ (k + k2))
      by (apply Z.mul_le_mono_nonneg_r; lia).
    lia.
Qed.

(** [Math.floor(r * L)] for a number [r] of [0, 1) and a whole number
    [L = n] whose mantissa is no power of two: a whole number below [n].
    The product is the binary64 product, rounded to nearest. *)
Lemma floor_mul_below (r L : float) (ML : positive) (EL n : Z) :
  Prim2SF L = S754_finite false ML EL ->
  2 ^ 52 < Z.pos ML < 2 ^ 53 -> -52 <= EL <= 0 -> Z.pos ML = n * 2 ^ (- EL) ->
  (0 <=? r)%float = true -> (r <? 1)%float = true ->
  exists i, JS.Math_floor (r * L) = JS.WholeNumber i /\ 0 <= i < n.
Proof.
  intros HL HML HEL Hn H0 H1.
  assert (Hp : 0 < 2 ^ (- EL)) by (apply Z.pow_pos_nonneg; lia).
  assert (Hn0 : 0 < n) by nia.
  unfold JS.Math_floor. rewrite FloatAxioms.mul_spec, HL.
  rewrite FloatAxioms.leb_spec in H0. rewrite FloatAxioms.ltb_spec in H1.
  pose proof (FloatAxioms.Prim2SF_valid r) as Hv.
  change (Prim2SF 0) with (S754_zero false) in H0.
  change (Prim2SF 1) with (S754_finite false 4503599627370496 (-52)) in H1.
  destruct (Prim2SF r) as [s|s| |s m e]; cbv [SFleb SFltb SFcompare] in H0, H1;
    try discriminate.
  - exists 0. split; [reflexivity|lia].
  - destruct s; discriminate.
  - destruct s; [discriminate|].
    unfold FloatAxioms.SF64mul, SFmul. cbn [xorb].
    cbn [valid_binary] in Hv. unfold bounded, canonical_mantissa in Hv.
    apply andb_true_iff in Hv as [Hc _]. apply Z.eqb_eq in Hc.
    unfold fexp, SpecFloat.emin, prec, emax in Hc.
    destruct (digits2_bounds m) as [Hlo Hhi].
    assert (He : -1074 <= e <= -52 /\ Z.pos m < 2 ^ (- e) /\ Z.pos m < 2 ^ 53).
    { destruct (Z.compare_spec e (-52)) as [->|Hlt|Hgt]; [| |discriminate H1].
      - assert (Z.pos m < 4503599627370496).
        { destruct (Pos.compare_cont Eq m 4503599627370496) eqn:Ec;
            try discriminate H1.
          exact Ec. }
        change (2 ^ (- -52)) with 4503599627370496.
        change (2 ^ 53) with 9007199254740992. lia.
      - assert (Hd : Z.pos (digits2_pos m) <= 53) by lia.
        assert (Z.pos m < 2 ^ 53).
        { apply Z.lt_le_trans with (2 ^ Z.pos (digits2_pos m)); [lia|].
          apply Z.pow_le_mono_r; lia. }
        split; [lia|]. split; [|assumption].
        apply Z.lt_le_trans with (2 ^ 53); [assumption|].
        apply Z.pow_le_mono_r; lia. }
    destruct He as (He & Hm & Hm53).
    pose proof (round_below m ML e EL Hm Hm53 He HML HEL) as Hr.
    destruct (binary_round_aux prec emax false (Z.pos (m * ML)) (e + EL) loc_Exact)
      as [s|s| |[|] m2 e2]; try contradiction.
    + exists 0. split; [reflexivity|lia].
    + eexists. split; [reflexivity|]. destruct Hr as [Hi0 Hi]. split; [exact Hi0|].
      rewrite Hn in Hi. nia.
Qed.

End RoundingFacts.

(** ** The password generator *)

Module PasswordGeneratorFacts.
Import JS PasswordGenerator.

Lemma chars_app (s1 s2 : string) : chars (s1 +:+ s2) = (chars s1 ++ chars s2)%list.
Proof.
  induction s1 as [|c s1 IH]; [reflexivity|].
  unfold chars in *. simpl. now rewrite IH.
Qed.

Lemma string_length_app (s1 s2 : string) :
  String.length (s1 +:+ s2) = (String.length s1 + String.length s2)%nat.
Proof.
  induction s1 as [|c s1 IH]; simpl; [reflexivity|]. now rewrite IH.
Qed.

Lemma get_some_lt (s : string) (i : nat) :
  (i < String.length s)%nat -> exists c, String.get i s = Some c /\ In c (chars s).
Proof.
  revert i. induction s as [|a s IH]; intros i Hi; simpl in Hi; [lia|].
  destruct i as [|i]; simpl.
  - exists a. split; [reflexivity|]. now left.
  - destruct (IH i) as (c & Hc & Hin); [lia|].
    exists c. split; [exact Hc|]. now right.
Qed.

(** [Math.floor(Math.random() * str.length)] is an index of the pool: the
    four pools have 52, 62, 70 and 80 characters. *)
Lemma floor_index (r : float) (n c : bool) :
  (0 <=? r)%float = true -> (r <? 1)%float = true ->
  exists i, Math_floor (r * length_of (pool n c)) = WholeNumber i
            /\ (0 <= i < Z.of_nat (String.length (pool n c)))%Z.
Proof.
  intros H0 H1. destruct n, c.
  - apply (RoundingFacts.floor_mul_below r _ 5629499534213120 (-46));
      try assumption; try reflexivity; split; (reflexivity || discriminate).
  - apply (RoundingFacts.floor_mul_below r _ 8725724278030336 (-47));
      try assumption; try reflexivity; split; (reflexivity || discriminate).
  - apply (RoundingFacts.floor_mul_below r _ 4925812092436480 (-46));
      try assumption; try reflexivity; split; (reflexivity || discriminate).
  - apply (RoundingFacts.floor_mul_below r _ 7318349394477056 (-47));
      try assumption; try reflexivity; split; (reflexivity || discriminate).
Qed.

(** A character drawn by one iteration comes from the pool. *)
Lemma charAt_drawn (r : float) (n c : bool) :
  (0 <=? r)%float = true -> (r <? 1)%float = true ->
  exists a, charAt (pool n c) (Math_floor (r * length_of (pool n c)))
            = String a EmptyString
            /\ In a (chars (pool n c)).
Proof.
  intros H0 H1.
  destruct (floor_index r n c H0 H1) as (i & -> & Hlo & Hhi).
  destruct (get_some_lt (pool n c) (Z.to_nat i)) as (a & Hget & Hin); [lia|].
  exists a. split; [|exact Hin].
  unfold charAt, unit_at. destruct (Z.ltb_spec i 0); [lia|]. now rewrite Hget.
Qed.

Lemma in_unit_tail (g : Rng) : in_unit g -> in_unit (snd (Math_random g)).
Proof. intros H n. apply (H (S n)). Qed.

(** The loop appends one character of the pool per iteration. *)
Lemma generate_loop_spec (P : ascii -> Prop) (nb cb : bool) (n : nat) :
  Forall P (chars (pool nb cb)) ->
  forall (pass : string) (g : Rng),
    in_unit g -> Forall P (chars pass) ->
    String.length (fst (generate_loop n (pool nb cb) pass g))
    = (String.length pass + n)%nat
    /\ Forall P (chars (fst (generate_loop n (pool nb cb) pass g)))
    /\ in_unit (snd (generate_loop n (pool nb cb) pass g)).
Proof.
  intros Hstr. induction n as [|n IH]; intros pass g Hg Hpass.
  - simpl. rewrite Nat.add_0_r. auto.
  - cbn [generate_loop Math_random].
    destruct (Hg O) as [H0 H1].
    destruct (charAt_drawn (g O) nb cb H0 H1) as (a & Ha & Hin).
    rewrite Ha.
    destruct (IH (pass +:+ String a EmptyString) (fun k => g (S k))) as (Hl & Hf & Hu).
    + apply (in_unit_tail g Hg).
    + rewrite chars_app. apply Forall_app. split; [exact Hpass|].
      constructor; [|constructor].
      rewrite Forall_forall in Hstr. apply Hstr. now apply list_elem_of_In.
    + rewrite Hl, string_length_app. simpl. split; [lia|]. auto.
Qed.

(** [passwordGenerator] in general: [length] characters of the pool. *)
Lemma passwordGenerator_spec (len : Z) (n c : bool) (g : Rng) :
  in_unit g ->
  String.length (fst (passwordGenerator len n c g)) = Z.to_nat len
  /\ Forall (fun a => In a (chars (pool n c))) (chars (fst (passwordGenerator len n c g)))
  /\ in_unit (snd (passwordGenerator len n c g)).
Proof.
  intros Hg. unfold passwordGenerator.
  destruct (generate_loop_spec (fun a => In a (chars (pool n c))) n c
              (Z.to_nat len)) with (pass := "") (g := g)
    as (Hl & Hf & Hu); try assumption.
  - apply Forall_forall. intros a Ha. now apply list_elem_of_In.
  - constructor.
  - auto.
Qed.

Lemma upper_lower_letters :
  String.length upper_lower = 52%nat
  /\ NoDup (chars upper_lower)
  /\ Forall (fun a => latin_letter a = true) (chars upper_lower).
Proof.
  split; [reflexivity|]. split.
  - apply (bool_decide_unpack _). vm_compute. exact I.
  - repeat constructor.
Qed.

Lemma generate_password (w : Widget) :
  password (cells (generate w))
  = fst (passwordGenerator (length (cells w)) (numberAllowed (cells w))
           (charAllowed (cells w)) (rng w)).
Proof. unfold generate. now destruct (passwordGenerator _ _ _ _). Qed.

Lemma generate_inputs_C (w : Widget) :
  inputs_C (cells w) -> in_unit (rng w) ->
  inputs_C (cells (generate w))
  /\ letters_only 6 (password (cells (generate w)))
  /\ in_unit (rng (generate w))
  /\ deps (generate w) = deps w.
Proof.
  intros (Hl & Hn & Hc) Hg. unfold generate.
  destruct (passwordGenerator_spec (length (cells w)) (numberAllowed (cells w))
              (charAllowed (cells w)) (rng w) Hg) as (Hlen & Hall & Hu).
  destruct (passwordGenerator _ _ _ _) as [pass g'] eqn:E.
  cbn [fst snd cells rng deps setPassword length numberAllowed charAllowed password] in *.
  split; [now repeat split|]. split; [|split; [exact Hu|reflexivity]].
  rewrite Hl in Hlen. rewrite Hn, Hc in Hall. split; [exact Hlen|].
  destruct upper_lower_letters as (_ & _ & Hletters).
  rewrite Forall_forall in Hall, Hletters. apply Forall_forall.
  intros a Ha. split.
  - apply Hall, Ha.
  - apply Hletters. apply list_elem_of_In. apply Hall, Ha.
Qed.

Lemma zero_then_half_in_unit : in_unit Scenario.zero_then_half.
Proof.
  intros n. unfold Scenario.zero_then_half.
  destruct (n <? 6)%nat; split; reflexivity.
Qed.

Lemma half_in_unit : in_unit Scenario.half.
Proof. intros n. split; reflexivity. Qed.

(** C5 (Scenario C). With [length = 6] and both flags off, whatever the
    random source answers, the generated password has exactly 6 characters,
    each one of the 52 letters; a regeneration with the inputs unchanged
    satisfies the same constraints, and can give a different string. *)
Theorem scenario_C_password :
  (forall g : Rng, in_unit g ->
     letters_only 6 (fst (passwordGenerator 6 false false g)))
  /\ (forall w : Widget, inputs_C (cells w) -> in_unit (rng w) ->
        inputs_C (cells (step w RegenerateClick))
        /\ letters_only 6 (password (cells (step w RegenerateClick)))
        /\ in_unit (rng (step w RegenerateClick)))
  /\ (String.length upper_lower = 52%nat /\ NoDup (chars upper_lower))
  /\ (exists g : Rng, in_unit g
        /\ password (cells (step (Scenario.scenario_C g) RegenerateClick))
           <> password (cells (step (step (Scenario.scenario_C g) RegenerateClick)
                                    RegenerateClick))).
Proof.
  split; [|split; [|split]].
  - intros g Hg.
    pose (w := Scenario.scenario_C g).
    destruct (generate_inputs_C w) as (_ & H & _); [repeat split| exact Hg |].
    rewrite generate_password in H. exact H.
  - intros w Hin Hg. unfold step. cbn [handle].
    destruct (generate_inputs_C w Hin Hg) as (Hin1 & Hp1 & Hg1 & Hd1).
    unfold run_effect. destruct (deps_changed _ _).
    + destruct (generate_inputs_C (generate w) Hin1 Hg1) as (Hin2 & Hp2 & Hg2 & _).
      simpl. auto.
    + auto.
  - destruct upper_lower_letters as (H1 & H2 & _). auto.
  - exists Scenario.zero_then_half. split; [apply zero_then_half_in_unit|].
    vm_compute. discriminate.
Qed.

(** The theorem at the random source that always answers one half. *)
Lemma scenario_C_password_witness :
  in_unit Scenario.half
  /\ letters_only 6 (fst (passwordGenerator 6 false false Scenario.half)).
Proof.
  split; [apply half_in_unit|].
  apply (proj1 scenario_C_password Scenario.half). apply half_in_unit.
Defined.

End PasswordGeneratorFacts.

(** ** The hook useCurrencyInfo *)

Module UseCurrencyInfoFacts.
Import JS Promise UseCurrencyInfo.

Lemma lower_unit_idem (c : ascii) : lower_unit (lower_unit c) = lower_unit c.
Proof.
  destruct c as [b0 b1 b2 b3 b4 b5 b6 b7].
  destruct b0, b1, b2, b3, b4, b5, b6, b7; reflexivity.
Qed.

Lemma toLowerCase_idem (s : string) : toLowerCase (toLowerCase s) = toLowerCase s.
Proof.
  induction s as [|c s IH]; [reflexivity|].
  simpl. now rewrite lower_unit_idem, IH.
Qed.

Lemma url_lower (k : string) : url (toLowerCase k) = url k.
Proof. unfold url. now rewrite toLowerCase_idem. Qed.

Lemma append_inj_l (p a b : string) : p +:+ a = p +:+ b -> a = b.
Proof.
  induction p as [|c p IH]; [auto|].
  intros E. change (String c (p +:+ a) = String c (p +:+ b)) in E.
  injection E as E. auto.
Qed.

Lemma append_inj_r (a b suffix : string) : a +:+ suffix = b +:+ suffix -> a = b.
Proof.
  intros E. apply (f_equal list_ascii_of_string) in E.
  change (PasswordGenerator.chars (a +:+ suffix) = PasswordGenerator.chars (b +:+ suffix)) in E.
  rewrite !PasswordGeneratorFacts.chars_app in E.
  apply app_inv_tail in E. unfold PasswordGenerator.chars in E.
  rewrite <- (string_of_list_ascii_of_string a), <- (string_of_list_ascii_of_string b).
  now rewrite E.
Qed.

(** The URL is the lowercased key between a fixed prefix and ".json". *)
Lemma url_inj (k k' : string) : url k = url k' <-> toLowerCase k = toLowerCase k'.
Proof.
  unfold url. split; [|now intros ->].
  intros E. apply append_inj_l in E. now apply append_inj_r in E.
Qed.

Section Chain.
Context `{Host}.

(** The chain always fulfils, after one call of [setData]. *)
Lemma chain_calls (currency : string) (o : FetchOutcome) (q : Queue) :
  chain currency o q = (Fulfilled (), (q ++ [written currency o])%list).
Proof.
  unfold written.
  destruct o as [|status [res|]]; [reflexivity| |reflexivity].
  unfold chain, catch_, then_, fetched, json, resolve, extract. simpl.
  destruct (get res (toLowerCase currency)) as [v|]; reflexivity.
Qed.

(** What the chain hands to [setData]: the entry under the lowercased key
    when that is truthy, the empty object otherwise. *)
Lemma written_cases (currency : string) (o : FetchOutcome) :
  (read_fails currency o = true -> written currency o = empty_object)
  /\ (read_fails currency o = false ->
      exists status res, o = Response status (Some res)
        /\ get res (toLowerCase currency) = Some (written currency o)
        /\ to_boolean (written currency o) = true).
Proof.
  unfold written.
  destruct o as [|status [res|]];
    [split; [reflexivity|discriminate]| |split; [reflexivity|discriminate]].
  unfold chain, catch_, then_, fetched, json, resolve, extract, read_fails. simpl.
  destruct (get res (toLowerCase currency)) as [v|] eqn:Hget;
    [|split; [reflexivity|discriminate]].
  unfold or_else. destruct (to_boolean v) eqn:Hv; simpl.
  - split; [discriminate|]. intros _. now exists status, res.
  - split; [reflexivity|discriminate].
Qed.

Lemma written_truthy (currency : string) (o : FetchOutcome) :
  to_boolean (written currency o) = true.
Proof.
  destruct (written_cases currency o) as [Hf Ht].
  destruct (read_fails currency o).
  - now rewrite Hf.
  - destruct Ht as (_ & _ & _ & _ & Hb); [reflexivity|exact Hb].
Qed.

(** An own entry that is truthy is what the chain hands to [setData]. *)
Lemma written_own_entry (currency : string) (o : FetchOutcome) (v : value) :
  own_entry currency o = Some v -> to_boolean v = true -> written currency o = v.
Proof.
  destruct o as [|status [[| | | | | |props|]|]]; try discriminate.
  cbn [own_entry]. intros Hv Hb. unfold written.
  unfold chain, catch_, then_, fetched, json, resolve, extract, get. simpl.
  rewrite Hv. unfold or_else. now rewrite Hb.
Qed.

Lemma update_store (h : Hook) (v : value) :
  is_function v = false -> update h v = Some (store v h).
Proof. now destruct v. Qed.

(** A processed update leaves the bookkeeping of the requests alone; the
    state is the old one, or a newly allocated one. *)
Lemma update_inv (h h' : Hook) (v : value) :
  update h v = Some h' ->
  h' = h
  \/ exists v', h' = store v' h /\ (is_function v = false -> v' = v).
Proof.
  destruct v; cbn [update]; try (intros E; injection E as <-; right; eauto).
  destruct (call name (val (data h))) as [| |v']; [discriminate| |].
  - intros E. injection E as <-. now left.
  - intros E. injection E as <-. right. exists v'. split; [reflexivity|discriminate].
Qed.

Lemma settle_pending (id : nat) (k : string) (o : FetchOutcome) (h : Hook) :
  pending h !! id = Some k ->
  settle id o h = update (settled_request id h) (written k o).
Proof.
  intros Hp. unfold settle. rewrite Hp, chain_calls. reflexivity.
Qed.

(** What the settling of a request leaves. *)
Lemma settle_inv (id : nat) (o : FetchOutcome) (h h' : Hook) :
  settle id o h = Some h' ->
  h' = h
  \/ exists k, pending h !! id = Some k
       /\ (h' = settled_request id h
           \/ exists v', h' = store v' (settled_request id h)
                /\ (is_function (written k o) = false -> v' = written k o)).
Proof.
  unfold settle. destruct (pending h !! id) as [k|] eqn:Hp.
  - rewrite chain_calls. cbn [snd app flush foldl mbind option_bind].
    intros Hu. right. exists k. split; [reflexivity|].
    destruct (update_inv _ _ _ Hu) as [->|Hs]; [now left|now right].
  - intros E. injection E as <-. now left.
Qed.

(** The state a write leaves depends on the state and the allocation
    counter only. *)
Lemma update_data (h1 h2 : Hook) (v : value) :
  data h1 = data h2 -> alloc h1 = alloc h2 ->
  data <$> update h1 v = data <$> update h2 v.
Proof.
  intros Ed Ea. destruct v; cbn [update fmap option_fmap option_map store data];
    try (now rewrite Ea).
  rewrite Ed. destruct (call name (val (data h2))); cbn; [reflexivity| |];
    now rewrite ?Ed, ?Ea.
Qed.

End Chain.

Lemma written_lower `{Host} (k : string) (o : FetchOutcome) :
  written (toLowerCase k) o = written k o.
Proof.
  unfold written, chain, catch_, then_, extract. now rewrite toLowerCase_idem.
Qed.

Lemma fetchFor_update `{Host} (net : Endpoint) (k : string) (h : Hook) :
  fetchFor net k h
  = update (settled_request (next_task h) (effect k h)) (written k (net (url k))).
Proof.
  unfold fetchFor. apply settle_pending.
  unfold effect. cbn [pending next_task]. apply lookup_insert_eq.
Qed.

(** C10. The request URL is the lowercased key between a fixed prefix and
    ".json", so that two keys have the same URL exactly when their
    lowercase forms agree; the entry extracted from a parsed object is the
    one under the lowercased key. A key and its lowercase form therefore
    give the same value in the result cell against the same endpoint, and
    when the endpoint serves, at the URL of the lowercase form, an object
    with a truthy entry that is no function under the lowercase form, that
    entry is the value of the cell, whatever the case of the key. *)
Theorem fetch_key_case_insensitive `{Host} (net : Endpoint) (k : string) (h : Hook) :
  url k
  = "https://cdn.jsdelivr.net/npm/@fawazahmed0/currency-api@latest/v1/currencies/"
    +:+ toLowerCase k +:+ ".json"
  /\ (forall k', url k = url k' <-> toLowerCase k = toLowerCase k')
  /\ (forall status props v,
        props !! toLowerCase k = Some v -> to_boolean v = true ->
        written k (Response status (Some (VObj props))) = v)
  /\ (forall o, written k o = written (toLowerCase k) o)
  /\ data <$> fetchFor net k h = data <$> fetchFor net (toLowerCase k) h
  /\ (forall status props v,
        net (url (toLowerCase k)) = Response status (Some (VObj props)) ->
        props !! toLowerCase k = Some v ->
        to_boolean v = true -> is_function v = false ->
        (val ∘ data) <$> fetchFor net k h = Some v).
Proof.
  split; [reflexivity|]. split; [intros k'; apply url_inj|].
  split; [intros status props v Hv Hb; now apply written_own_entry|].
  split; [intros o; now rewrite written_lower|].
  split.
  - rewrite !fetchFor_update, url_lower, written_lower.
    apply update_data; reflexivity.
  - intros status props v Hnet Hv Hb Hf.
    rewrite fetchFor_update, <- url_lower, Hnet.
    rewrite (written_own_entry k (Response status (Some (VObj props))) v Hv Hb).
    now rewrite update_store.
Qed.

(** C2, as stated, fails: the status of the response is never read. A
    response with status 500 whose body parses and has an entry under the
    key is written to the cell, which is then not the empty mapping. *)
Lemma http_500_with_entry_is_written :
  (val ∘ data) <$> @fetchFor plain_host (fun _ => Response 500 (Some Scenario.xyz_body))
                     "xyz" initial
  = Some (VObj {[ "eur" := VNum 1 ]})
  /\ VObj {[ "eur" := VNum 1 ]} <> empty_object.
Proof.
  split; [vm_compute; reflexivity|].
  intros E. vm_compute in E. discriminate E.
Qed.

(** C2, amended. Whatever the network answers, the chain fulfils after one
    call of [setData]: nothing propagates. When the read fails as the code
    sees it ([fetch] rejects, the body is no JSON, the body is [null], or
    the body has no truthy entry under the lowercased key) the cell
    receives the empty mapping. The status plays no part; a response that
    does not fail in this sense has its entry handed to [setData], and the
    cell receives it unless it is a function. *)
Theorem fetch_failure_fallback `{Host} (id : nat) (currency : string)
    (o : FetchOutcome) (h : Hook) :
  pending h !! id = Some currency ->
  (forall q, chain currency o q = (Fulfilled (), (q ++ [written currency o])%list))
  /\ (read_fails currency o = true ->
      exists h', settle id o h = Some h' /\ val (data h') = empty_object)
  /\ (forall status status' body q,
        chain currency (Response status body) q
        = chain currency (Response status' body) q)
  /\ (read_fails currency o = false ->
      exists status res v,
        o = Response status (Some res)
        /\ get res (toLowerCase currency) = Some v
        /\ to_boolean v = true
        /\ written currency o = v
        /\ (is_function v = false ->
            exists h', settle id o h = Some h' /\ val (data h') = v)).
Proof.
  intros Hp. split; [intros q; apply chain_calls|].
  destruct (written_cases currency o) as [Hf Ht].
  rewrite (settle_pending id currency o h Hp).
  split; [|split].
  - intros E. rewrite (Hf E). eexists. split; reflexivity.
  - reflexivity.
  - intros E. destruct (Ht E) as (status & res & Ho & Hg & Hb).
    exists status, res, (written currency o).
    repeat (split; [assumption || reflexivity|]).
    intros Hfun. rewrite update_store by exact Hfun. eexists. split; reflexivity.
Qed.

(** The theorem at Scenario B: status 500 and a body that is no JSON. *)
Lemma fetch_failure_fallback_witness :
  pending (effect "xyz" initial) !! 0%nat = Some "xyz"
  /\ @read_fails plain_host "xyz" (Response 500 None) = true
  /\ exists h', @settle plain_host 0 (Response 500 None) (effect "xyz" initial) = Some h'
       /\ val (data h') = empty_object.
Proof.
  assert (Hp : pending (effect "xyz" initial) !! 0%nat = Some "xyz") by reflexivity.
  split; [exact Hp|]. split; [reflexivity|].
  destruct (@fetch_failure_fallback plain_host 0 "xyz" (Response 500 None)
              (effect "xyz" initial) Hp) as (_ & Hw & _).
  apply Hw. reflexivity.
Defined.

(** C1, as stated, fails: nothing cancels the request for "eur" when the
    one for "gbp" is issued, and its late resolution overwrites the cell
    while the hook is at "gbp". *)
Lemma superseded_fetch_overwrites :
  let h0 := run_effect "gbp" (run_effect "eur" initial) in
  pending h0 = {[ 0%nat := "eur"; 1%nat := "gbp" ]}
  /\ exists h1 h2,
       @settle plain_host 1 (Response 200 (Some Scenario.gbp_body)) h0 = Some h1
       /\ @settle plain_host 0 (Response 200 (Some Scenario.eur_body)) h1 = Some h2
       /\ val (data h1) = Scenario.gbp_rates
       /\ deps h2 = Some "gbp"
       /\ val (data h2) = Scenario.eur_rates
       /\ Scenario.eur_rates <> Scenario.gbp_rates.
Proof.
  split; [vm_compute; reflexivity|].
  do 2 eexists. split; [vm_compute; reflexivity|].
  split; [vm_compute; reflexivity|].
  repeat (split; [vm_compute; reflexivity|]).
  intros E. vm_compute in E. discriminate E.
Qed.

(** C1, amended. No request is cancelled: after a fetch for [k1] and then
    one for [k2], both are in flight. Whichever resolves first, the other
    is still in flight afterwards and its resolution is processed like any
    other: its value is handed to [setData] while the hook is at [k2].
    When the values are no functions the cell ends with the value of the
    request that resolves last. *)
Theorem last_resolved_wins `{Host} (h : Hook) (k1 k2 : string) (o1 o2 : FetchOutcome) :
  k1 <> k2 ->
  let id1 := next_task h in
  let id2 := S (next_task h) in
  let issued := run_effect k2 (effect k1 h) in
  pending issued !! id1 = Some k1
  /\ pending issued !! id2 = Some k2
  /\ (forall h2, settle id2 o2 issued = Some h2 ->
        pending h2 !! id1 = Some k1
        /\ deps h2 = Some k2
        /\ settle id1 o1 h2 = update (settled_request id1 h2) (written k1 o1))
  /\ (forall h1, settle id1 o1 issued = Some h1 ->
        pending h1 !! id2 = Some k2
        /\ settle id2 o2 h1 = update (settled_request id2 h1) (written k2 o2))
  /\ (is_function (written k1 o1) = false ->
      is_function (written k2 o2) = false ->
      (exists h2 h21, settle id2 o2 issued = Some h2 /\ settle id1 o1 h2 = Some h21
         /\ val (data h21) = written k1 o1 /\ deps h21 = Some k2)
      /\ (exists h1 h12, settle id1 o1 issued = Some h1 /\ settle id2 o2 h1 = Some h12
            /\ val (data h12) = written k2 o2 /\ deps h12 = Some k2)).
Proof.
  intros Hne id1 id2 issued.
  assert (Hissued : issued = effect k2 (effect k1 h)).
  { unfold issued, run_effect, changed. cbn [effect deps].
    destruct (String.eqb_spec k1 k2) as [E|_]; [contradiction|reflexivity]. }
  assert (Hp1 : pending issued !! id1 = Some k1).
  { rewrite Hissued. unfold effect. cbn [pending next_task].
    rewrite lookup_insert_ne by (unfold id1; lia). apply lookup_insert_eq. }
  assert (Hp2 : pending issued !! id2 = Some k2).
  { rewrite Hissued. unfold effect. cbn [pending next_task]. apply lookup_insert_eq. }
  assert (Hd : deps issued = Some k2) by (now rewrite Hissued).
  assert (Hafter2 : forall h2, settle id2 o2 issued = Some h2 ->
            pending h2 !! id1 = Some k1 /\ deps h2 = Some k2).
  { intros h2 Hs. rewrite (settle_pending id2 k2 o2 issued Hp2) in Hs.
    destruct (update_inv _ _ _ Hs) as [->|(v' & -> & _)];
      cbn [store settled_request pending deps];
      (split; [rewrite lookup_delete_ne by (unfold id1, id2; lia); exact Hp1|exact Hd]). }
  assert (Hafter1 : forall h1, settle id1 o1 issued = Some h1 ->
            pending h1 !! id2 = Some k2 /\ deps h1 = Some k2).
  { intros h1 Hs. rewrite (settle_pending id1 k1 o1 issued Hp1) in Hs.
    destruct (update_inv _ _ _ Hs) as [->|(v' & -> & _)];
      cbn [store settled_request pending deps];
      (split; [rewrite lookup_delete_ne by (unfold id1, id2; lia); exact Hp2|exact Hd]). }
  split; [exact Hp1|]. split; [exact Hp2|]. split; [|split].
  - intros h2 Hs. destruct (Hafter2 h2 Hs) as [Hq Hdd].
    split; [exact Hq|]. split; [exact Hdd|]. now apply settle_pending.
  - intros h1 Hs. destruct (Hafter1 h1 Hs) as [Hq _].
    split; [exact Hq|]. now apply settle_pending.
  - intros Hf1 Hf2. split.
    + assert (Hs2 : settle id2 o2 issued
                    = Some (store (written k2 o2) (settled_request id2 issued))).
      { rewrite (settle_pending id2 k2 o2 issued Hp2). now apply update_store. }
      destruct (Hafter2 _ Hs2) as [Hq Hdd].
      do 2 eexists. split; [exact Hs2|].
      rewrite (settle_pending id1 k1 o1 _ Hq), update_store by exact Hf1.
      split; [reflexivity|]. split; [reflexivity|exact Hd].
    + assert (Hs1 : settle id1 o1 issued
                    = Some (store (written k1 o1) (settled_request id1 issued))).
      { rewrite (settle_pending id1 k1 o1 issued Hp1). now apply update_store. }
      destruct (Hafter1 _ Hs1) as [Hq Hdd].
      do 2 eexists. split; [exact Hs1|].
      rewrite (settle_pending id2 k2 o2 _ Hq), update_store by exact Hf2.
      split; [reflexivity|]. split; [reflexivity|exact Hd].
Qed.

(** The theorem at "eur" then "gbp", the answer for "gbp" arriving first. *)
Lemma last_resolved_wins_witness :
  "eur" <> "gbp"
  /\ exists h2 h21,
       @settle plain_host 1 (Response 200 (Some Scenario.gbp_body))
         (run_effect "gbp" (effect "eur" initial)) = Some h2
       /\ @settle plain_host 0 (Response 200 (Some Scenario.eur_body)) h2 = Some h21
       /\ val (data h21) = @written plain_host "eur" (Response 200 (Some Scenario.eur_body))
       /\ deps h21 = Some "gbp".
Proof.
  split; [discriminate|].
  refine (proj1 (proj2 (proj2 (proj2 (proj2
    (@last_resolved_wins plain_host initial "eur" "gbp"
       (Response 200 (Some Scenario.eur_body))
       (Response 200 (Some Scenario.gbp_body)) _)))) _ _));
    [discriminate|reflexivity|reflexivity].
Defined.

End UseCurrencyInfoFacts.

(** ** The component App *)

Module CurrencyConverterFacts.
Import JS Promise UseCurrencyInfo CurrencyConverter.
Module PG := PasswordGenerator.

(** The widgets of the scenarios are states the component reaches. *)
Lemma scenarios_reached :
  @mount plain_host = Some Scenario.awaiting_rates
  /\ @step plain_host Scenario.awaiting_rates
       (FetchSettles 0 (Response 200 (Some Scenario.inr_only_body)))
     = Some Scenario.scenario_A
  /\ @step plain_host Scenario.awaiting_rates
       (FetchSettles 0 (Response 200 (Some Scenario.usd_body)))
     = Some Scenario.usd_to_inr.
Proof. repeat split; vm_compute; reflexivity. Qed.

Section Commit.
Context `{Host}.

Lemma commit_some (w : Widget) (r : value) :
  get (val (data (hook w))) (to (cells w)) = Some r ->
  (to_boolean r = true -> toFixed r = Some ()) ->
  commit w = Some (committed w r).
Proof.
  intros Hget Hfix. unfold commit, committed, render, auto_convert, effect_updates.
  rewrite Hget. cbn [mbind option_bind].
  destruct (to_boolean r) eqn:Hr.
  - rewrite (Hfix eq_refl). cbn [mbind option_bind].
    destruct (convert_changed _ _ _); reflexivity.
  - cbn [mbind option_bind].
    destruct (convert_changed _ _ _); reflexivity.
Qed.

Lemma commit_inv (w w' : Widget) :
  commit w = Some w' ->
  exists r, get (val (data (hook w))) (to (cells w)) = Some r
            /\ (to_boolean r = true -> toFixed r = Some ())
            /\ w' = committed w r.
Proof.
  intros Hc. unfold commit, render in Hc.
  destruct (get (val (data (hook w))) (to (cells w))) as [r|] eqn:Hget;
    [|discriminate Hc].
  exists r. split; [reflexivity|].
  cbn [mbind option_bind] in Hc.
  assert (Hfix : to_boolean r = true -> toFixed r = Some ()).
  { intros Hr. rewrite Hr in Hc. cbn [mbind option_bind] in Hc.
    destruct (toFixed r) as [[]|]; [reflexivity|discriminate Hc]. }
  split; [exact Hfix|].
  pose proof (commit_some w r Hget Hfix) as Hs. unfold commit, render in Hs.
  rewrite Hget in Hs. cbn [mbind option_bind] in Hs.
  congruence.
Qed.

Lemma apply_updates_effect (runs : bool) (c : Cells) (r : value) :
  amount (apply_updates (effect_updates runs c r) c) = amount c
  /\ from (apply_updates (effect_updates runs c r) c) = from c
  /\ to (apply_updates (effect_updates runs c r) c) = to c.
Proof. unfold effect_updates. now destruct (runs && to_boolean r). Qed.

Lemma run_effect_frame (currency : string) (h : Hook) :
  data (run_effect currency h) = data h
  /\ deps (run_effect currency h) = Some currency.
Proof.
  unfold run_effect, changed. destruct (deps h) as [c|] eqn:Hd.
  - destruct (String.eqb_spec c currency) as [->|_]; simpl; auto.
  - simpl. auto.
Qed.

(** After a render every effect has seen the cells of that render. *)
Lemma committed_stable (w : Widget) (r : value) : stable (committed w r).
Proof.
  unfold stable, committed. cbn [cells hook convert_deps].
  destruct (apply_updates_effect
              (convert_changed (convert_deps w) (cells w) (data (hook w)))
              (cells w) r) as (Ha & Hf & Ht).
  destruct (run_effect_frame (from (cells w)) (hook w)) as (Hd & Hdeps).
  rewrite Ha, Hf, Ht, Hd, Hdeps. auto.
Qed.


(** A mapping without an entry for the target currency is unready on a
    host whose prototype does not answer the key. *)
Lemma no_entry_unready (c : Cells) (rates : gmap string value) :
  rates !! to c = None -> proto_get (VObj rates) (to c) = VUndefined ->
  unready c (VObj rates) = true.
Proof. intros Hn Hp. unfold unready, get. now rewrite Hn, Hp. Qed.

(** A handler leaves the bookkeeping of the effects alone. *)
Lemma handle_frame (w w1 : Widget) (e : Event) :
  handle w e = Some w1 ->
  convert_deps w1 = convert_deps w /\ log w1 = log w
  /\ deps (hook w1) = deps (hook w).
Proof.
  destruct e; cbn [handle]; intros Hh;
    try (injection Hh as <-; now cbn).
  - destruct (convert _ _) as [us|]; [|discriminate Hh].
    cbn [mbind option_bind] in Hh. injection Hh as <-. now cbn.
  - destruct (settle id o (hook w)) as [h'|] eqn:Hs; [|discriminate Hh].
    cbn [mbind option_bind] in Hh. injection Hh as <-. cbn [convert_deps log hook].
    split; [reflexivity|]. split; [reflexivity|].
    destruct (UseCurrencyInfoFacts.settle_inv id o _ _ Hs)
      as [->|(k & Hp & [->|(v' & -> & _)])]; reflexivity.
Qed.

Lemma step_inv (w w' : Widget) (e : Event) :
  step w e = Some w' ->
  exists w1 r, handle w e = Some w1
    /\ get (val (data (hook w1))) (to (cells w1)) = Some r
    /\ (to_boolean r = true -> toFixed r = Some ())
    /\ w' = committed w1 r.
Proof.
  unfold step. destruct (handle w e) as [w1|]; [|discriminate].
  cbn [mbind option_bind]. intros Hc.
  destruct (commit_inv w1 w' Hc) as (r & Hg & Hf & ->).
  now exists w1, r.
Qed.

(** The log after an event on a widget whose effects are up to date. *)
Lemma step_log (w w' : Widget) (e : Event) :
  stable w ->
  step w e = Some w' ->
  exists w1, handle w e = Some w1
    /\ log w'
       = (log w
          ++ (if changed (Some (from (cells w))) (from (cells w1))
              then [FetchRun (from (cells w1))] else [])
          ++ (if convert_changed (Some (amount (cells w), data (hook w), to (cells w)))
                   (cells w1) (data (hook w1))
              then [ConvertRun (amount (cells w1)) (data (hook w1)) (to (cells w1))]
              else []))%list
    /\ stable w'.
Proof.
  intros [Hs Hd] Hstep.
  destruct (step_inv w w' e Hstep) as (w1 & r & Hh & Hg & Hf & ->).
  destruct (handle_frame w w1 e Hh) as (Hcd & Hlog & Hdeps).
  exists w1. split; [exact Hh|]. split; [|apply committed_stable].
  unfold committed. cbn [log]. now rewrite Hcd, Hlog, Hdeps, Hs, Hd.
Qed.

Lemma same_primitive_refl (v : value) :
  is_primitive v = true -> same_primitive v v = true.
Proof.
  destruct v; cbn; try discriminate; intros _; try reflexivity.
  - now destruct b.
  - now apply FloatAxioms.Leibniz.eqb_spec.
  - apply String.eqb_refl.
Qed.

Lemma object_is_refl (a : Ref) : object_is a a = true.
Proof.
  unfold object_is. destruct (is_primitive (val a)) eqn:E.
  - now apply same_primitive_refl.
  - cbn. apply Nat.eqb_refl.
Qed.

Lemma convert_runs_app (l1 l2 : list Run) :
  convert_runs (l1 ++ l2)
  = (convert_runs l1 + convert_runs l2)%nat.
Proof.
  induction l1 as [|[k|a i t] l1 IH]; cbn [convert_runs app]; [reflexivity|assumption|].
  now rewrite IH.
Qed.

Lemma convert_changed_same (c : Cells) (i : Ref) :
  convert_changed (Some (amount c, i, to c)) c i = false.
Proof.
  unfold convert_changed.
  rewrite (proj2 (FloatAxioms.Leibniz.eqb_spec _ _) eq_refl).
  now rewrite object_is_refl, String.eqb_refl.
Qed.

(** The render scheduled by the update of the effect runs no effect and
    changes nothing: [convertedAmount] is no dependency of any effect. *)
Lemma rerender_quiescent (w w' : Widget) :
  commit w = Some w' -> commit w' = Some w'.
Proof.
  intros Hc. destruct (commit_inv w w' Hc) as (r & Hg & Hf & ->).
  pose proof (committed_stable w r) as [Hs Hd].
  set (w' := committed w r) in *.
  assert (Hto : to (cells w') = to (cells w)).
  { unfold w', committed. cbn [cells]. apply apply_updates_effect. }
  assert (Hdata : data (hook w') = data (hook w)).
  { unfold w', committed. cbn [hook]. apply run_effect_frame. }
  rewrite (commit_some w' r); [|now rewrite Hdata, Hto|exact Hf].
  f_equal. unfold committed at 1. rewrite Hs, Hd, convert_changed_same.
  unfold effect_updates, run_effect, changed. rewrite Hd, String.eqb_refl.
  cbn [andb negb apply_updates fold_left]. rewrite !app_nil_r.
  rewrite <- Hs. now destruct w'.
Qed.

(** Over a sequence of events the effect of [App] runs at most once per
    event. *)
Lemma run_convert_runs (es : list Event) (w w' : Widget) :
  stable w ->
  run w es = Some w' ->
  stable w'
  /\ (convert_runs (log w')
      <= convert_runs (log w) + List.length es)%nat.
Proof.
  revert w. induction es as [|e es IH]; intros w Hst Hrun.
  - cbn in Hrun. injection Hrun as <-. split; [exact Hst|]. cbn. lia.
  - cbn [run] in Hrun.
    destruct (step w e) as [w1|] eqn:Hstep; [|discriminate Hrun].
    cbn [mbind option_bind] in Hrun.
    destruct (step_log w w1 e Hst Hstep) as (w0 & _ & Hlog & Hst1).
    destruct (IH w1 Hst1 Hrun) as [Hst' Hle]. split; [exact Hst'|].
    rewrite Hlog, !convert_runs_app in Hle.
    destruct (changed _ _), (convert_changed _ _ _); cbn in Hle |- *; lia.
Qed.

Lemma min_changed_inputs (c c' : Cells) (i i' : Ref) :
  Nat.min 1 (changed_inputs c c' i i')
  = if convert_changed (Some (amount c, i, to c)) c' i' then 1%nat else 0%nat.
Proof.
  unfold changed_inputs, convert_changed.
  destruct (PrimFloat.Leibniz.eqb (amount c) (amount c')), (object_is i i'),
    (String.eqb (to c) (to c')); reflexivity.
Qed.

End Commit.

(** C3 (Scenario A). With [amount = 1], rates [{inr: 83.5}] and
    [to = "inr"], all seen by the effect, typing 10 into the amount field
    leaves exactly 835 in [convertedAmount]. *)
Theorem scenario_A_conversion `{Host} (w : Widget) :
  stable w ->
  amount (cells w) = 1%float ->
  to (cells w) = "inr" ->
  val (data (hook w)) = Scenario.inr_only ->
  exists w', step w (AmountInput 10) = Some w'
             /\ amount (cells w') = 10%float
             /\ convertedAmount (cells w') = 835%float.
Proof.
  intros [Hs _] Ha Ht Hv.
  set (w1 := with_cells (apply_updates [SetAmount 10] (cells w)) w).
  assert (Hget : get (val (data (hook w1))) (to (cells w1)) = Some (VNum 83.5)).
  { cbn. rewrite Hv, Ht. unfold Scenario.inr_only, get.
    now rewrite lookup_singleton_eq. }
  exists (committed w1 (VNum 83.5)). split.
  - unfold step. cbn [handle mbind option_bind]. fold w1.
    apply commit_some; [exact Hget|reflexivity].
  - unfold committed. subst w1. cbn [cells hook convert_deps with_cells].
    rewrite Hs. unfold convert_changed, apply_updates at 2 4.
    cbn [fold_left apply_update amount from to convertedAmount].
    rewrite Ha. change (PrimFloat.Leibniz.eqb 1 10) with false.
    cbn [andb negb]. unfold effect_updates.
    change (to_boolean (VNum 83.5)) with true. cbn [andb].
    split; reflexivity.
Qed.

(** The theorem at the widget of Scenario A. *)
Lemma scenario_A_conversion_witness :
  stable Scenario.scenario_A
  /\ exists w', @step plain_host Scenario.scenario_A (AmountInput 10) = Some w'
                /\ amount (cells w') = 10%float
                /\ convertedAmount (cells w') = 835%float.
Proof.
  split; [split; reflexivity|].
  apply (@scenario_A_conversion plain_host Scenario.scenario_A);
    [split; reflexivity | reflexivity | reflexivity | reflexivity].
Defined.




(** C6. [swap] sets the four cells from the values of the render it closes
    over: the amounts and the currencies change places. It reads no rate:
    the hook is left as it was and two widgets with the same cells get the
    same cells. In the render that follows, [convertedAmount] can differ
    from [amount * currencyInfo[to]]. *)
Theorem swap_is_direct_exchange `{Host} :
  (forall c : Cells,
     apply_updates (swap c) c
     = {| amount := convertedAmount c; from := to c;
          to := from c; convertedAmount := amount c |})
  /\ (forall w : Widget,
        exists w1, handle w SwapClick = Some w1
          /\ cells w1 = apply_updates (swap (cells w)) (cells w)
          /\ hook w1 = hook w)
  /\ (forall w1 w2 : Widget,
        cells w1 = cells w2 ->
        cells <$> handle w1 SwapClick = cells <$> handle w2 SwapClick)
  /\ (exists (w w1 : Widget) (r : value),
        handle w SwapClick = Some w1
        /\ get (val (data (hook w1))) (to (cells w1)) = Some r
        /\ PrimFloat.eqb (convertedAmount (cells w1)) (mul (amount (cells w1)) r)
           = false).
Proof.
  split; [|split; [|split]].
  - intros c. reflexivity.
  - intros w. eexists. split; [reflexivity|]. split; reflexivity.
  - intros w1 w2 E. cbn [handle fmap option_fmap option_map with_cells cells].
    now rewrite E.
  - exists Scenario.usd_to_inr. eexists. exists (VNum 1).
    split; [reflexivity|]. split; reflexivity.
Qed.

(** What the render after a swap leaves: the exchanged cells, with
    [convertedAmount] recomputed from the rates still held when the effect
    runs and its guard passes. *)
Lemma swap_then_effect `{Host} (w w' : Widget) :
  step w SwapClick = Some w' ->
  amount (cells w') = convertedAmount (cells w)
  /\ from (cells w') = to (cells w)
  /\ to (cells w') = from (cells w)
  /\ (convertedAmount (cells w') = amount (cells w)
      \/ exists r, get (val (data (hook w))) (from (cells w)) = Some r
           /\ to_boolean r = true
           /\ convertedAmount (cells w') = mul (convertedAmount (cells w)) r).
Proof.
  intros Hstep.
  destruct (step_inv w w' SwapClick Hstep) as (w1 & r & Hh & Hg & _ & ->).
  cbn [handle] in Hh. injection Hh as <-.
  cbn [cells hook with_cells] in Hg.
  unfold committed, effect_updates. cbn [cells hook with_cells convert_deps].
  destruct (convert_changed _ _ _ && to_boolean r) eqn:E.
  - apply andb_true_iff in E as [_ Hr].
    repeat (split; [reflexivity|]). right. exists r. auto.
  - repeat (split; [reflexivity|]). now left.
Qed.

(** C8, as stated, fails: [swap] changes two declared inputs of the effect,
    [amount] and [to], and the effect runs once, after the one render that
    shows both changes. *)
Lemma swap_runs_effect_once :
  exists w1 w',
    @handle plain_host Scenario.usd_to_inr SwapClick = Some w1
    /\ @step plain_host Scenario.usd_to_inr SwapClick = Some w'
    /\ changed_inputs (cells Scenario.usd_to_inr) (cells w1)
         (data (hook Scenario.usd_to_inr)) (data (hook w1)) = 2%nat
    /\ log w' = (log Scenario.usd_to_inr
                 ++ [ FetchRun "inr";
                      ConvertRun 83.5 {| ref := 1; val := Scenario.usd_rates |} "usd" ])%list
    /\ convert_runs (log w')
       = S (convert_runs (log Scenario.usd_to_inr)).
Proof.
  do 2 eexists. split; [reflexivity|]. split; [vm_compute; reflexivity|].
  split; [reflexivity|]. split; vm_compute; reflexivity.
Qed.

(** C8, amended. After an event the effect of [App] runs once when at least
    one of [amount], [currencyInfo], [to] differs between the previous
    render and the render that shows all updates of the handler, however
    many of them differ, and not at all otherwise; a run sees the cells of
    that render. *)
Theorem effect_runs_once_per_render `{Host} (w w' : Widget) (e : Event) :
  stable w ->
  step w e = Some w' ->
  exists w1, handle w e = Some w1
    /\ convert_runs (log w')
       = (convert_runs (log w)
          + Nat.min 1 (changed_inputs (cells w) (cells w1)
                         (data (hook w)) (data (hook w1))))%nat
    /\ (forall a i t, In (ConvertRun a i t) (log w') ->
          In (ConvertRun a i t) (log w)
          \/ (a = amount (cells w1) /\ i = data (hook w1) /\ t = to (cells w1)))
    /\ stable w'.
Proof.
  intros Hst Hstep.
  destruct (step_log w w' e Hst Hstep) as (w1 & Hh & Hlog & Hst').
  exists w1. split; [exact Hh|]. split; [|split; [|exact Hst']].
  - rewrite Hlog, min_changed_inputs, !convert_runs_app.
    destruct (changed _ _), (convert_changed _ _ _); cbn; lia.
  - intros a i t. rewrite Hlog, !in_app_iff. intros [Hin|[Hin|Hin]].
    + now left.
    + destruct (changed _ _); [|contradiction].
      destruct Hin as [E|[]]. discriminate E.
    + destruct (convert_changed _ _ _); [|contradiction].
      destruct Hin as [E|[]]. injection E as <- <- <-. now right.
Qed.

(** The theorem at the swap from usd to inr. *)
Lemma effect_runs_once_per_render_witness :
  stable Scenario.usd_to_inr
  /\ exists w', @step plain_host Scenario.usd_to_inr SwapClick = Some w'
                /\ stable w'.
Proof.
  split; [split; reflexivity|].
  destruct (@step plain_host Scenario.usd_to_inr SwapClick) as [w'|] eqn:E;
    [|vm_compute in E; discriminate E].
  exists w'. split; [reflexivity|].
  destruct (@effect_runs_once_per_render plain_host Scenario.usd_to_inr w' SwapClick)
    as (w1 & _ & _ & _ & Hst); [split; reflexivity | exact E | exact Hst].
Defined.

Lemma deps_eqb_eq (a b : Z * bool * bool) :
  PG.deps_eqb a b = true <-> a = b.
Proof.
  destruct a as [[l1 n1] c1], b as [[l2 n2] c2]. unfold PG.deps_eqb.
  rewrite !andb_true_iff, Z.eqb_eq, !Bool.eqb_true_iff.
  split; [intros [[-> ->] ->]; reflexivity | intros E; injection E; auto].
Qed.

Lemma password_handle_deps (w : PG.Widget) (e : PG.Event) :
  PG.deps (PG.handle w e) = PG.deps w.
Proof.
  destruct e; try reflexivity.
  cbn [PG.handle]. unfold PG.generate.
  now destruct (PG.passwordGenerator _ _ _ _).
Qed.

(** C9. At mount every effect body runs once against the initial cells,
    and what it computes is written: the effect of the password generator
    writes the generated password; the hook issues the fetch; the body of
    the effect of [App], guard included, writes the product when the rate
    read is truthy and skips the write when the rates are not ready.
    Afterwards an effect runs again after each render in which one of its
    declared inputs differs from the previous render, and only then: for
    the effect of [App], once after every event that changes [amount],
    [currencyInfo] or [to], and not after a change of [from]. *)
Theorem effects_run_at_mount `{Host} :
  (forall g : PG.Rng,
     PG.effect_runs (PG.mount g) = 1%nat
     /\ PG.password (PG.cells (PG.mount g))
        = fst (PG.passwordGenerator 12 true true g)
     /\ PG.deps (PG.mount g) = Some (12%Z, true, true))
  /\ (forall (w : PG.Widget) (e : PG.Event),
        let w1 := PG.handle w e in
        let c1 := PG.cells w1 in
        PG.deps w
        = Some (PG.deps_of (PG.cells w)) ->
        (PG.deps_of c1
         <> PG.deps_of (PG.cells w) ->
         PG.effect_runs (PG.step w e)
         = S (PG.effect_runs w)
         /\ PG.password
              (PG.cells (PG.step w e))
            = fst (PG.passwordGenerator
                     (PG.length c1) (PG.numberAllowed c1)
                     (PG.charAllowed c1) (PG.rng w1)))
        /\ (PG.deps_of c1
            = PG.deps_of (PG.cells w) ->
            PG.step w e = w1))
  /\ (forall w : Widget,
        mount = Some w ->
        log w = [ FetchRun "usd"; ConvertRun 1 (data (hook initial)) "inr" ]
        /\ pending (hook w) = {[ 0%nat := "usd" ]}
        /\ exists r, get empty_object "inr" = Some r
             /\ cells w = apply_updates (effect_updates true (cells initial) r)
                            (cells initial)
             /\ (to_boolean r = false -> cells w = cells initial))
  /\ (forall (w w' : Widget) (x : float),
        stable w ->
        PrimFloat.Leibniz.eqb (amount (cells w)) x = false ->
        step w (AmountInput x) = Some w' ->
        log w' = (log w ++ [ ConvertRun x (data (hook w)) (to (cells w)) ])%list)
  /\ (forall (w w' : Widget) (f : string),
        stable w ->
        step w (FromSelect f) = Some w' ->
        convert_runs (log w') = convert_runs (log w))
  /\ (forall (w w' : Widget) (e : Event),
        stable w ->
        step w e = Some w' ->
        exists w1, handle w e = Some w1
          /\ convert_runs (log w')
             = (convert_runs (log w)
                + (if convert_changed
                        (Some (amount (cells w), data (hook w), to (cells w)))
                        (cells w1) (data (hook w1))
                   then 1 else 0))%nat).
Proof.
  split; [|split; [|split; [|split; [|split]]]]; cycle 5.
  { intros w w' e Hst Hstep.
    destruct (step_log _ _ _ Hst Hstep) as (w1 & Hh & Hlog & _).
    exists w1. split; [exact Hh|]. rewrite Hlog, !convert_runs_app.
    destruct (changed _ _), (convert_changed _ _ _); cbn; lia. }
  - intros g. unfold PG.mount, PG.run_effect.
    cbn [PG.deps_changed PG.initial PG.deps].
    cbn [PG.effect_runs PG.cells PG.deps].
    split; [reflexivity|]. split; [|reflexivity].
    now rewrite PasswordGeneratorFacts.generate_password.
  - intros w e w1 c1 Hd. split.
    + intros Hne. unfold PG.step, PG.run_effect.
      fold w1. unfold PG.deps_changed.
      replace (PG.deps w1) with (PG.deps w)
        by (symmetry; apply password_handle_deps).
      rewrite Hd.
      destruct (PG.deps_eqb _ _) eqn:E.
      * apply deps_eqb_eq in E. fold c1 in E. congruence.
      * cbn [negb PG.effect_runs PG.cells].
        rewrite PasswordGeneratorFacts.generate_password. fold c1.
        split; [|reflexivity].
        unfold w1. destruct e; try reflexivity.
        cbn [PG.handle]. unfold PG.generate.
        now destruct (PG.passwordGenerator _ _ _ _).
    + intros Heq. unfold PG.step, PG.run_effect.
      fold w1. unfold PG.deps_changed.
      replace (PG.deps w1) with (PG.deps w)
        by (symmetry; apply password_handle_deps).
      rewrite Hd. fold c1. rewrite <- Heq.
      now rewrite (proj2 (deps_eqb_eq _ _) eq_refl).
  - intros w Hm. unfold mount in Hm.
    destruct (commit_inv initial w Hm) as (r & Hg & _ & ->).
    split; [reflexivity|]. split; [reflexivity|].
    exists r. split; [exact Hg|]. split; [reflexivity|].
    intros Hr. unfold committed, effect_updates. cbn [cells]. now rewrite Hr.
  - intros w w' x Hst Hneq Hstep.
    destruct (step_log _ _ _ Hst Hstep) as (w1 & Hh & Hlog & _).
    cbn [handle] in Hh. injection Hh as <-. rewrite Hlog.
    cbn [cells hook with_cells]. unfold apply_updates.
    cbn [fold_left apply_update amount from to convertedAmount].
    unfold changed, convert_changed.
    cbn [amount from to convertedAmount].
    now rewrite String.eqb_refl, Hneq.
  - intros w w' f Hst Hstep.
    destruct (step_log _ _ _ Hst Hstep) as (w1 & Hh & Hlog & _).
    cbn [handle] in Hh. injection Hh as <-. rewrite Hlog.
    cbn [cells hook with_cells]. unfold apply_updates.
    cbn [fold_left apply_update amount from to convertedAmount].
    unfold convert_changed. cbn [amount from to convertedAmount].
    rewrite (proj2 (FloatAxioms.Leibniz.eqb_spec _ _) eq_refl).
    rewrite object_is_refl, String.eqb_refl. cbn [andb negb].
    rewrite !convert_runs_app. destruct (changed _ _); cbn; lia.
Qed.

(** The theorem at the mount of [App] on a host whose prototypes answer no
    key. *)
Lemma effects_run_at_mount_witness :
  @mount plain_host = Some Scenario.awaiting_rates
  /\ log Scenario.awaiting_rates
     = [ FetchRun "usd"; ConvertRun 1 (data (hook initial)) "inr" ]
  /\ pending (hook Scenario.awaiting_rates) = {[ 0%nat := "usd" ]}.
Proof.
  assert (Hm : @mount plain_host = Some Scenario.awaiting_rates)
    by (vm_compute; reflexivity).
  split; [exact Hm|].
  destruct (@effects_run_at_mount plain_host) as (_ & _ & Hmount & _).
  destruct (Hmount Scenario.awaiting_rates Hm) as (Hlog & Hp & _).
  split; [exact Hlog | exact Hp].
Defined.

End CurrencyConverterFacts.

(** ** The reactive store of the specification *)

Module StoreFacts.
Import Store.

Section Cycle.
Context {T : Type} (d1 d2 : Derivation T).
Hypothesis writes1 : writes d1.
Hypothesis writes2 : writes d2.
Hypothesis feeds12 : output d1 ∈ inputs d2.
Hypothesis feeds21 : output d2 ∈ inputs d1.

Lemma write_wired (st : Store T) (name : string) (v : T) (c : Cell T) :
  wired d1 d2 st -> wired d1 d2 (write name v c st).
Proof.
  intros (Hs & [Hi1 Ho1] & [Hi2 Ho2]).
  assert (Hk : forall n, is_Some (cells st !! n) ->
                         is_Some (cells (write name v c st) !! n)).
  { intros n Hn. unfold write. cbn [cells].
    destruct (decide (name = n)) as [->|Hne].
    - rewrite lookup_insert_eq. eauto.
    - now rewrite lookup_insert_ne. }
  split; [exact Hs|]. split; split; auto.
Qed.

Lemma read_declared (st : Store T) (names : list string) :
  (forall n, n ∈ names -> is_Some (cells st !! n)) ->
  exists args, read st names = inr args.
Proof.
  induction names as [|n ns IH]; intros Hall; [now exists []|].
  destruct IH as [xs Hxs]; [intros m Hm; apply Hall; now right|].
  destruct (Hall n) as [c Hc]; [now left|].
  exists (value c :: xs). cbn [read]. unfold get. now rewrite Hc, Hxs.
Qed.

Lemma set_pass_revisit (fuel : nat) (updating : list string) (st : Store T)
    (name : string) (v : T) :
  name ∈ updating ->
  set_pass (S fuel) updating st name v = Some (inl CycleError).
Proof. intros Hin. cbn [set_pass]. now rewrite bool_decide_true. Qed.

(** A derivation declared in the store that writes and is triggered by
    [name] hands its result to the set of the pass. *)
Lemma notify_fires (set_rec : Store T -> string -> T -> option (error + Store T))
    (name : string) (st : Store T) (d : Derivation T) :
  name ∈ inputs d -> declared st d -> writes d ->
  exists r, notify set_rec name (Some (inr st)) d = set_rec st (output d) r.
Proof.
  intros Hin [Hi _] Hw. unfold notify. rewrite bool_decide_true by exact Hin.
  destruct (read_declared st (inputs d) Hi) as [args ->].
  destruct (Hw args) as [r ->]. now exists r.
Qed.

Lemma notify_skips (set_rec : Store T -> string -> T -> option (error + Store T))
    (name : string) (st : Store T) (d : Derivation T) :
  name ∉ inputs d -> notify set_rec name (Some (inr st)) d = Some (inr st).
Proof. intros Hn. unfold notify. now rewrite bool_decide_false. Qed.

(** The notifications after a write of [name], when the set of whichever
    derivation fires first ends in the CycleError. *)
Lemma notified_cycle (set_rec : Store T -> string -> T -> option (error + Store T))
    (name : string) (st : Store T) :
  wired d1 d2 st ->
  name ∈ inputs d1 \/ name ∈ inputs d2 ->
  (name ∈ inputs d1 -> forall r, set_rec st (output d1) r = Some (inl CycleError)) ->
  (name ∈ inputs d2 -> forall r, set_rec st (output d2) r = Some (inl CycleError)) ->
  foldl (notify set_rec name) (Some (inr st)) [d1; d2] = Some (inl CycleError).
Proof.
  intros (_ & Hd1 & Hd2) Hin H1 H2. cbn [foldl].
  destruct (decide (name ∈ inputs d1)) as [Hi|Hi].
  - destruct (notify_fires set_rec name st d1 Hi Hd1 writes1) as [r ->].
    now rewrite H1.
  - rewrite notify_skips by exact Hi.
    destruct Hin as [Hin|Hin]; [contradiction|].
    destruct (notify_fires set_rec name st d2 Hin Hd2 writes2) as [r ->].
    now apply H2.
Qed.

(** One level of [set_pass] on a wired store. *)
Lemma set_pass_wired (fuel : nat) (updating : list string) (st : Store T)
    (name : string) (v : T) :
  wired d1 d2 st ->
  name ∈ inputs d1 \/ name ∈ inputs d2 ->
  (forall st', wired d1 d2 st' ->
     (name ∈ inputs d1 -> forall r,
        set_pass fuel (name :: updating) st' (output d1) r = Some (inl CycleError))
     /\ (name ∈ inputs d2 -> forall r,
        set_pass fuel (name :: updating) st' (output d2) r = Some (inl CycleError))) ->
  set_pass (S fuel) updating st name v = Some (inl CycleError).
Proof.
  intros Hw Hin Hrec. cbn [set_pass].
  destruct (bool_decide (name ∈ updating)); [reflexivity|].
  assert (Hcell : is_Some (cells st !! name)).
  { destruct Hw as (_ & [Hi1 _] & [Hi2 _]). destruct Hin; auto. }
  destruct Hcell as [c ->].
  destruct Hw as (Hs & Hd1 & Hd2). rewrite Hs.
  assert (Hw' : wired d1 d2 (write name v c st)) by (now apply write_wired).
  destruct (Hrec _ Hw') as [H1 H2].
  now apply notified_cycle.
Qed.

(** A set of an output while the other output is being updated. *)
Lemma set_output_while_other (fuel : nat) (updating : list string) (st : Store T)
    (r : T) :
  wired d1 d2 st ->
  (output d2 ∈ updating ->
   set_pass (S (S fuel)) updating st (output d1) r = Some (inl CycleError))
  /\ (output d1 ∈ updating ->
      set_pass (S (S fuel)) updating st (output d2) r = Some (inl CycleError)).
Proof.
  intros Hw. split; intros Hin.
  - apply set_pass_wired; [exact Hw | now right |].
    intros st' _. split; intros _ r'; apply set_pass_revisit.
    + now left.
    + now right.
  - apply set_pass_wired; [exact Hw | now left |].
    intros st' _. split; intros _ r'; apply set_pass_revisit.
    + now right.
    + now left.
Qed.

(** A set of an output, whatever is being updated. *)
Lemma set_output (fuel : nat) (updating : list string) (st : Store T) (r : T) :
  wired d1 d2 st ->
  set_pass (S (S (S fuel))) updating st (output d1) r = Some (inl CycleError)
  /\ set_pass (S (S (S fuel))) updating st (output d2) r = Some (inl CycleError).
Proof.
  intros Hw. split.
  - apply set_pass_wired; [exact Hw | now right |].
    intros st' Hw'. split; intros _ r'.
    + apply set_pass_revisit. now left.
    + apply (set_output_while_other fuel _ st' r' Hw'). now left.
  - apply set_pass_wired; [exact Hw | now left |].
    intros st' Hw'. split; intros _ r'.
    + apply (set_output_while_other fuel _ st' r' Hw'). now left.
    + apply set_pass_revisit. now left.
Qed.

End Cycle.

(** C7 (Scenario D). In a store whose subscribers are two derivations that
    write, each output a declared input of the other, a set of any declared
    input ends the pass with the CycleError once the cascade comes back to
    a cell being updated; fuel 4 is enough, and no cascade is cut short. *)
Theorem mutual_derivations_cycle {T : Type} (st : Store T) (d1 d2 : Derivation T)
    (name : string) (v : T) (fuel : nat) :
  subscribers st = [d1; d2] ->
  declared st d1 -> declared st d2 ->
  writes d1 -> writes d2 ->
  output d1 ∈ inputs d2 -> output d2 ∈ inputs d1 ->
  name ∈ inputs d1 \/ name ∈ inputs d2 ->
  4 <= fuel ->
  set_pass fuel [] st name v = Some (inl CycleError).
Proof.
  intros Hs Hd1 Hd2 Hw1 Hw2 H12 H21 Hin Hfuel.
  destruct fuel as [|[|[|[|fuel]]]]; try lia.
  apply (set_pass_wired d1 d2 Hw1 Hw2);
    [split; [exact Hs | split; assumption] | exact Hin |].
  intros st' Hw'.
  split; intros _ r.
  - now apply (set_output d1 d2 Hw1 Hw2 H12 H21 fuel [name] st' r).
  - now apply (set_output d1 d2 Hw1 Hw2 H12 H21 fuel [name] st' r).
Qed.

(** The theorem at Scenario D: a set of "a". *)
Lemma mutual_derivations_cycle_witness :
  set_pass 4 [] Scenario.scenario_D "a" 5%Z = Some (inl CycleError).
Proof.
  apply (mutual_derivations_cycle Scenario.scenario_D
           (Scenario.successor_into "a" "b") (Scenario.successor_into "b" "a")).
  - reflexivity.
  - split.
    + intros n Hn. apply list_elem_of_singleton in Hn as ->.
      exists {| value := 0%Z; version := 0 |}. now vm_compute.
    + exists {| value := 0%Z; version := 0 |}. now vm_compute.
  - split.
    + intros n Hn. apply list_elem_of_singleton in Hn as ->.
      exists {| value := 0%Z; version := 0 |}. now vm_compute.
    + exists {| value := 0%Z; version := 0 |}. now vm_compute.
  - intros args. eexists. reflexivity.
  - intros args. eexists. reflexivity.
  - now left.
  - now left.
  - left. now left.
  - lia.
Defined.

End StoreFacts.

(** ** The rest of the password generator component *)

Module PasswordPanelFacts.
Import JS PasswordGenerator PasswordPanel.

(** No character of the first string occurs in the second. *)
Lemma disjoint_chars (s1 s2 : string) :
  forallb (fun a => negb (existsb (Ascii.eqb a) (chars s2))) (chars s1) = true ->
  forall a, In a (chars s1) -> ~ In a (chars s2).
Proof.
  intros Hall a H1 H2.
  rewrite forallb_forall in Hall. specialize (Hall a H1).
  apply negb_true_iff in Hall.
  assert (Hex : existsb (Ascii.eqb a) (chars s2) = true).
  { apply existsb_exists. exists a. split; [exact H2|apply Ascii.eqb_refl]. }
  congruence.
Qed.

(** X1. For every length, every setting of the two flags and every random
    source, the password has exactly [length] characters (none when
    [length] is not positive), each one of the pool; it holds no digit
    unless numbers are allowed and no symbol unless symbols are allowed. *)
Theorem password_respects_settings (len : Z) (n c : bool) (g : Rng) :
  in_unit g ->
  String.length (fst (passwordGenerator len n c g)) = Z.to_nat len
  /\ ((len <= 0)%Z -> fst (passwordGenerator len n c g) = "")
  /\ Forall (fun a => In a (chars (pool n c)))
       (chars (fst (passwordGenerator len n c g)))
  /\ (n = false ->
      Forall (fun a => ~ In a (chars digits)) (chars (fst (passwordGenerator len n c g))))
  /\ (c = false ->
      Forall (fun a => ~ In a (chars symbols)) (chars (fst (passwordGenerator len n c g)))).
Proof.
  intros Hg.
  destruct (PasswordGeneratorFacts.passwordGenerator_spec len n c g Hg) as (Hl & Hp & _).
  split; [exact Hl|]. split; [|split; [exact Hp|split]].
  - intros Hle. destruct (fst (passwordGenerator len n c g)); [reflexivity|].
    simpl in Hl. lia.
  - intros ->. eapply Forall_impl; [exact Hp|].
    intros a Ha. destruct c; revert a Ha; apply disjoint_chars; reflexivity.
  - intros ->. eapply Forall_impl; [exact Hp|].
    intros a Ha. destruct n; revert a Ha; apply disjoint_chars; reflexivity.
Qed.

(** The theorem at length 12 with both flags on. *)
Lemma password_respects_settings_witness :
  in_unit Scenario.half
  /\ String.length (fst (passwordGenerator 12 true true Scenario.half)) = 12%nat.
Proof.
  split; [apply PasswordGeneratorFacts.half_in_unit|].
  apply (password_respects_settings 12 true true Scenario.half).
  apply PasswordGeneratorFacts.half_in_unit.
Defined.

Lemma chars_length (s : string) : List.length (chars s) = String.length s.
Proof. induction s as [|a s IH]; [reflexivity|]. unfold chars in *. simpl. now rewrite IH. Qed.

Lemma string_of_chars (s : string) : string_of_list_ascii (chars s) = s.
Proof. apply string_of_list_ascii_of_string. Qed.

Lemma index_of_get (a : ascii) (s : string) :
  In a (chars s) ->
  (index_of a s < String.length s)%nat /\ String.get (index_of a s) s = Some a.
Proof.
  induction s as [|b s IH]; [intros []|].
  intros Hin. cbn [index_of]. destruct (Ascii.eqb_spec a b) as [->|Hne].
  - split; [simpl; lia|reflexivity].
  - destruct Hin as [E|Hin]; [congruence|].
    destruct (IH Hin) as [Hlt Hget]. split; [simpl; lia|exact Hget].
Qed.

Lemma draws_index_below (len : nat) :
  forallb (draws_index len) (seq 0 len) = true ->
  forall i, (i < len)%nat -> draws_index len i = true.
Proof.
  intros Hall i Hi. rewrite forallb_forall in Hall. apply Hall.
  apply in_seq. lia.
Qed.

(** The answer [draw len i] lies in [0, 1) and draws the index [i] of the
    pool: checked for each index of the four pools. *)
Lemma draw_spec (n c : bool) (i : nat) :
  (i < String.length (pool n c))%nat ->
  (0 <=? draw (String.length (pool n c)) i)%float = true
  /\ (draw (String.length (pool n c)) i <? 1)%float = true
  /\ Math_floor (draw (String.length (pool n c)) i * length_of (pool n c))
     = WholeNumber (Z.of_nat i).
Proof.
  intros Hi.
  assert (Hok : draws_index (String.length (pool n c)) i = true).
  { revert i Hi. apply draws_index_below. destruct n, c; vm_compute; reflexivity. }
  unfold draws_index in Hok. fold (length_of (pool n c)) in Hok.
  apply andb_true_iff in Hok as [Hok Hfl]. apply andb_true_iff in Hok as [H0 H1].
  split; [exact H0|]. split; [exact H1|].
  destruct (Math_floor _) as [| |j]; try discriminate Hfl.
  apply Z.eqb_eq in Hfl. now subst j.
Qed.

Lemma draws_in_unit (n c : bool) (idxs : list nat) :
  Forall (fun i => (i < String.length (pool n c))%nat) idxs ->
  in_unit (draws (String.length (pool n c)) idxs).
Proof.
  intros Hall k. unfold draws.
  destruct (nth_error idxs k) as [i|] eqn:E.
  - assert (Hi : (i < String.length (pool n c))%nat).
    { rewrite Forall_forall in Hall. apply Hall. apply list_elem_of_In.
      eapply nth_error_In. exact E. }
    destruct (draw_spec n c i Hi) as (H0 & H1 & _). now split.
  - split; reflexivity.
Qed.

Lemma append_empty_r (s : string) : s +:+ "" = s.
Proof.
  induction s as [|b s IH]; [reflexivity|].
  change (String b (s +:+ "") = String b s). now rewrite IH.
Qed.

Lemma append_one (s t : string) (a : ascii) :
  (s +:+ String a EmptyString) +:+ t = s +:+ String a t.
Proof.
  induction s as [|b s IH]; [reflexivity|].
  change (String b ((s +:+ String a EmptyString) +:+ t) = String b (s +:+ String a t)).
  now rewrite IH.
Qed.

(** The loop on the source that draws the indices of the characters of [l]
    appends [l]. *)
Lemma generate_loop_draws (n c : bool) (l : list ascii) :
  Forall (fun a => In a (chars (pool n c))) l ->
  forall pass : string,
    fst (generate_loop (List.length l) (pool n c) pass
           (draws (String.length (pool n c))
              (List.map (fun a => index_of a (pool n c)) l)))
    = pass +:+ string_of_list_ascii l.
Proof.
  induction l as [|a l IH]; intros Hall pass.
  - cbn. now rewrite append_empty_r.
  - apply Forall_cons in Hall as [Ha Hall].
    destruct (index_of_get a (pool n c) Ha) as [Hlt Hget].
    destruct (draw_spec n c _ Hlt) as (_ & _ & Hfl).
    cbn [List.length List.map generate_loop Math_random].
    change (draws (String.length (pool n c))
              (index_of a (pool n c) :: List.map (fun a0 => index_of a0 (pool n c)) l) O)
      with (draw (String.length (pool n c)) (index_of a (pool n c))).
    rewrite Hfl.
    change (fun k : nat =>
              draws (String.length (pool n c))
                (index_of a (pool n c) :: List.map (fun a0 => index_of a0 (pool n c)) l)
                (S k))
      with (draws (String.length (pool n c))
              (List.map (fun a0 => index_of a0 (pool n c)) l)).
    unfold charAt, unit_at.
    destruct (Z.ltb_spec (Z.of_nat (index_of a (pool n c))) 0); [lia|].
    rewrite Nat2Z.id, Hget, (IH Hall).
    cbn [string_of_list_ascii]. apply append_one.
Qed.

Lemma all_in_pool (p s : string) :
  forallb (fun a => existsb (Ascii.eqb a) (chars p)) (chars s) = true ->
  Forall (fun a => In a (chars p)) (chars s).
Proof.
  intros Hall. apply Forall_forall. intros a Ha.
  rewrite forallb_forall in Hall. apply list_elem_of_In in Ha.
  specialize (Hall a Ha). apply existsb_exists in Hall as (b & Hb & E).
  apply Ascii.eqb_eq in E. now subst.
Qed.

(** X2. No string over the pool is excluded: for every setting of the flags
    and every string whose characters are in the pool, some random source
    makes [passwordGenerator] return exactly this string. In particular a
    password can lack digits and symbols although both are allowed. *)
Theorem every_pool_string_is_generated (n c : bool) (s : string) :
  Forall (fun a => In a (chars (pool n c))) (chars s) ->
  exists g : Rng,
    in_unit g
    /\ fst (passwordGenerator (Z.of_nat (String.length s)) n c g) = s.
Proof.
  intros Hall.
  exists (draws (String.length (pool n c))
            (List.map (fun a => index_of a (pool n c)) (chars s))).
  split.
  - apply draws_in_unit. apply Forall_forall. intros i Hi.
    apply list_elem_of_In, in_map_iff in Hi as (a & <- & Ha).
    rewrite Forall_forall in Hall.
    apply (index_of_get a (pool n c)). apply Hall. now apply list_elem_of_In.
  - unfold passwordGenerator. rewrite Nat2Z.id, <- chars_length.
    rewrite (generate_loop_draws n c (chars s) Hall "").
    cbn [String.append]. apply string_of_chars.
Qed.

(** The theorem at a string of letters while digits and symbols are
    allowed. *)
Lemma every_pool_string_is_generated_witness :
  exists g : Rng,
    in_unit g /\ fst (passwordGenerator 6 true true g) = "Secret".
Proof.
  change 6%Z with (Z.of_nat (String.length "Secret")).
  apply (every_pool_string_is_generated true true "Secret").
  apply all_in_pool. vm_compute. reflexivity.
Defined.

Lemma generate_cells (w : Widget) :
  length (cells (generate w)) = length (cells w)
  /\ numberAllowed (cells (generate w)) = numberAllowed (cells w)
  /\ charAllowed (cells (generate w)) = charAllowed (cells w)
  /\ deps (generate w) = deps w
  /\ effect_runs (generate w) = effect_runs w
  /\ rng (generate w)
     = snd (passwordGenerator (length (cells w)) (numberAllowed (cells w))
              (charAllowed (cells w)) (rng w)).
Proof. unfold generate. now destruct (passwordGenerator _ _ _ _). Qed.

(** A generation leaves a password that fits the settings it ran on. *)
Lemma generate_fits (w : Widget) :
  in_unit (rng w) ->
  String.length (password (cells (generate w))) = Z.to_nat (length (cells w))
  /\ Forall (fun a => In a (chars (pool (numberAllowed (cells w)) (charAllowed (cells w)))))
       (chars (password (cells (generate w))))
  /\ in_unit (rng (generate w)).
Proof.
  intros Hg. rewrite PasswordGeneratorFacts.generate_password.
  destruct (generate_cells w) as (_ & _ & _ & _ & _ & ->).
  apply PasswordGeneratorFacts.passwordGenerator_spec, Hg.
Qed.

Lemma run_effect_consistent (w : Widget) :
  in_unit (rng w) ->
  (deps w = Some (deps_of (cells w)) -> consistent w) ->
  consistent (run_effect w) /\ in_unit (rng (run_effect w)).
Proof.
  intros Hg Hsame. unfold run_effect, deps_changed.
  destruct (deps w) as [d|] eqn:Hd.
  - destruct (deps_eqb d (deps_of (cells w))) eqn:E; cbn [negb].
    + apply CurrencyConverterFacts.deps_eqb_eq in E. subst d.
      split; [now apply Hsame|exact Hg].
    + destruct (generate_fits w Hg) as (Hl & Hp & Hu).
      destruct (generate_cells w) as (El & En & Ec & _).
      split; [|exact Hu]. unfold consistent, deps_of. cbn [cells deps].
      rewrite El, En, Ec. auto.
  - destruct (generate_fits w Hg) as (Hl & Hp & Hu).
    destruct (generate_cells w) as (El & En & Ec & _).
    split; [|exact Hu]. unfold consistent, deps_of. cbn [cells deps].
    rewrite El, En, Ec. auto.
Qed.

Lemma mount_consistent (g : Rng) :
  in_unit g -> consistent (mount g) /\ in_unit (rng (mount g)).
Proof.
  intros Hg. apply run_effect_consistent; [exact Hg|discriminate].
Qed.

Lemma step_consistent (w : Widget) (e : Event) :
  consistent w -> in_unit (rng w) ->
  consistent (step w e) /\ in_unit (rng (step w e)).
Proof.
  intros (Hd & Hl & Hp) Hg. unfold step.
  destruct e; cbn [handle].
  - apply run_effect_consistent; [exact Hg|].
    cbn [with_cells deps cells]. unfold deps_of. cbn [length numberAllowed charAllowed].
    rewrite Hd. unfold deps_of. intros E. injection E as E.
    unfold consistent, deps_of. cbn. rewrite <- E. auto.
  - apply run_effect_consistent; [exact Hg|].
    cbn [with_cells deps cells]. unfold deps_of. cbn [length numberAllowed charAllowed].
    rewrite Hd. unfold deps_of. intros E. injection E as E.
    now destruct (numberAllowed (cells w)).
  - apply run_effect_consistent; [exact Hg|].
    cbn [with_cells deps cells]. unfold deps_of. cbn [length numberAllowed charAllowed].
    rewrite Hd. unfold deps_of. intros E. injection E as E.
    now destruct (charAllowed (cells w)).
  - destruct (generate_fits w Hg) as (Hl' & Hp' & Hu).
    destruct (generate_cells w) as (El & En & Ec & Ed & _).
    apply run_effect_consistent; [exact Hu|]. intros _.
    unfold consistent, deps_of. rewrite Ed, El, En, Ec. auto.
Qed.

(** X3. After the mount and any sequence of slider moves, toggles and
    regenerate clicks, the password on display has the length on display
    and only characters of the pool of the flags on display: no event
    leaves a password of the previous settings behind. *)
Theorem password_matches_settings (g : Rng) (es : list Event) :
  in_unit g ->
  consistent (run (mount g) es).
Proof.
  intros Hg. destruct (mount_consistent g Hg) as [Hc Hu].
  revert Hc Hu. generalize (mount g). induction es as [|e es IH]; intros w Hc Hu.
  - exact Hc.
  - cbn [run]. destruct (step_consistent w e Hc Hu) as [Hc' Hu']. now apply IH.
Qed.

(** The theorem after a move of the slider to 6 and both toggles. *)
Lemma password_matches_settings_witness :
  in_unit Scenario.half
  /\ consistent (run (mount Scenario.half) [LengthSlide 6; NumberToggle; CharToggle]).
Proof.
  split; [apply PasswordGeneratorFacts.half_in_unit|].
  apply (password_matches_settings Scenario.half).
  apply PasswordGeneratorFacts.half_in_unit.
Defined.

(** X4. [getPasswordStrength] is monotone: a longer length or an added
    flag never lowers the answer. The answer is Weak exactly below length
    8, and without numbers and symbols it is never above Medium, whatever
    the length. *)
Theorem strength_monotone (l l' : Z) (n n' c c' : bool) :
  (l <= l')%Z -> implb n n' = true -> implb c c' = true ->
  (strength_rank (getPasswordStrength l n c)
   <= strength_rank (getPasswordStrength l' n' c'))%nat
  /\ (strength_rank (getPasswordStrength l n c) = 0%nat <-> (l < 8)%Z)
  /\ (strength_rank (getPasswordStrength l false false) <= 1)%nat.
Proof.
  intros Hl Hn Hc. unfold getPasswordStrength.
  destruct (Z.leb_spec 16 l), (Z.leb_spec 12 l), (Z.leb_spec 8 l),
    (Z.leb_spec 16 l'), (Z.leb_spec 12 l'), (Z.leb_spec 8 l'); try lia;
    destruct n, n', c, c'; try discriminate; cbn; repeat split; intros; lia.
Qed.

(** The theorem from length 8 without flags to length 16 with both. *)
Lemma strength_monotone_witness :
  (8 <= 16)%Z
  /\ (strength_rank (getPasswordStrength 8 false false)
      <= strength_rank (getPasswordStrength 16 true true))%nat.
Proof.
  split; [lia|].
  apply (strength_monotone 8 16 false true false true); [lia|reflexivity|reflexivity].
Defined.

(** A render of a component whose effect has seen the settings runs no
    effect. *)
Lemma run_effect_quiet (w : Widget) : consistent w -> run_effect w = w.
Proof.
  intros (Hd & _). unfold run_effect, deps_changed. rewrite Hd.
  now rewrite (proj2 (CurrencyConverterFacts.deps_eqb_eq _ _) eq_refl).
Qed.

(** X5. A click on the copy button never regenerates or alters the
    password. With a clipboard whose write fulfils, the clipboard receives
    exactly the password on display. The flag [copied] is raised without
    waiting for the write, so also when the write is rejected and the
    clipboard keeps its old content. Without a clipboard the handler throws
    before any setter and nothing changes. No timeout is ever cleared: after
    two clicks the timeout of the first click lowers the flag while the
    timeout of the second is still pending. *)
Theorem copy_leaves_password (p : Panel) :
  consistent (widget p) ->
  (exists p', copyPasswordToClipboard WriteFulfils p = Some p'
     /\ widget p' = widget p
     /\ clipboard p' = Some (password (cells (widget p)))
     /\ copied p' = true)
  /\ (exists p', copyPasswordToClipboard WriteRejects p = Some p'
        /\ widget p' = widget p
        /\ clipboard p' = clipboard p
        /\ copied p' = true)
  /\ copy_click NoClipboard p = p
  /\ (forall api, api <> NoClipboard ->
        let p2 := timeout_fires (copy_click api (copy_click api p)) in
        widget p2 = widget p
        /\ copied p2 = false
        /\ timeouts p2 = S (timeouts p)).
Proof.
  intros Hc. pose proof (run_effect_quiet _ Hc) as Hq.
  split; [|split; [|split]].
  - eexists. split; [reflexivity|]. cbn. auto.
  - eexists. split; [reflexivity|]. cbn. auto.
  - reflexivity.
  - intros api Hapi. destruct api; [contradiction| |];
      cbn; rewrite !Hq; auto.
Qed.

(** The theorem at the component just mounted. *)
Lemma copy_leaves_password_witness :
  consistent (widget (mount_panel Scenario.half))
  /\ copy_click NoClipboard (mount_panel Scenario.half) = mount_panel Scenario.half.
Proof.
  assert (Hc : consistent (widget (mount_panel Scenario.half))).
  { apply (mount_consistent Scenario.half), PasswordGeneratorFacts.half_in_unit. }
  split; [exact Hc|].
  apply (copy_leaves_password (mount_panel Scenario.half) Hc).
Defined.

End PasswordPanelFacts.

(** ** Histories of the hook *)

Module HistoryFacts.
Import JS Promise UseCurrencyInfo CurrencyConverter History.

Section Hook.
Context `{Host}.

Lemma run_effect_fresh (currency : string) (h : Hook) :
  fresh h -> fresh (run_effect currency h).
Proof.
  intros [Hr Hp]. unfold run_effect. destruct (changed _ _); [|now split].
  unfold effect, fresh. cbn. split; [exact Hr|].
  intros id k. destruct (decide (next_task h = id)) as [<-|Hne].
  - intros _. lia.
  - rewrite lookup_insert_ne by exact Hne. intros Hk. specialize (Hp _ _ Hk). lia.
Qed.

Lemma settled_request_fresh (id : nat) (h : Hook) :
  fresh h -> fresh (settled_request id h).
Proof.
  intros [Hr Hp]. split; [exact Hr|]. cbn. intros id' k'.
  destruct (decide (id = id')) as [<-|Hne].
  - now rewrite lookup_delete_eq.
  - rewrite lookup_delete_ne by exact Hne. apply Hp.
Qed.

Lemma store_fresh (v : value) (h : Hook) : fresh h -> fresh (store v h).
Proof. intros [Hr Hp]. split; [cbn; lia|exact Hp]. Qed.

Lemma settle_fresh (id : nat) (o : FetchOutcome) (h h' : Hook) :
  fresh h -> settle id o h = Some h' -> fresh h'.
Proof.
  intros Hf Hs.
  destruct (UseCurrencyInfoFacts.settle_inv id o h h' Hs)
    as [->|(k & _ & [->|(v' & -> & _)])].
  - exact Hf.
  - now apply settled_request_fresh.
  - now apply store_fresh, settled_request_fresh.
Qed.

Lemma hook_step_fresh (h h' : Hook) (e : HookEvent) :
  fresh h -> hook_step h e = Some h' -> fresh h'.
Proof.
  intros Hf. destruct e as [currency|id o]; cbn [hook_step].
  - intros E. injection E as <-. now apply run_effect_fresh.
  - now apply settle_fresh.
Qed.

Lemma truthy_get (v : value) (k : string) :
  to_boolean v = true -> is_Some (get v k).
Proof. destruct v; cbn; try discriminate; eauto. Qed.

(** A history whose responses hand no function to [setData] never throws
    and keeps the state truthy. *)
Lemma hook_run_truthy (keys : list string) (served : list FetchOutcome)
    (es : list HookEvent) :
  (forall k o, In k keys -> In o served -> is_function (written k o) = false) ->
  (forall k, In k (rendered es) -> In k keys) ->
  (forall o, In o (outcomes es) -> In o served) ->
  forall h : Hook,
    (forall id k, pending h !! id = Some k -> In k keys) ->
    to_boolean (val (data h)) = true -> fresh h ->
    exists h', hook_run h es = Some h'
      /\ to_boolean (val (data h')) = true /\ fresh h'.
Proof.
  intros Hvalues. induction es as [|e es IH]; intros Hk Ho h Hp Ht Hf.
  - exists h. now split.
  - destruct e as [currency|id o]; cbn [hook_run hook_step mbind option_bind].
    + apply IH.
      * intros k Hin. apply Hk. now right.
      * exact Ho.
      * unfold run_effect. destruct (changed _ _); [|exact Hp].
        cbn [effect pending]. intros id k.
        destruct (decide (next_task h = id)) as [<-|Hne].
        -- rewrite lookup_insert_eq. intros E. injection E as <-. apply Hk. now left.
        -- rewrite lookup_insert_ne by exact Hne. apply Hp.
      * unfold run_effect. now destruct (changed _ _).
      * now apply run_effect_fresh.
    + assert (Ho' : forall o', In o' (outcomes es) -> In o' served).
      { intros o' Hin. apply Ho. now right. }
      destruct (pending h !! id) as [k|] eqn:Epend.
      * rewrite (UseCurrencyInfoFacts.settle_pending id k o h Epend).
        rewrite UseCurrencyInfoFacts.update_store
          by (apply Hvalues; [now apply (Hp id)|apply Ho; now left]).
        cbn [mbind option_bind]. apply IH; try assumption.
        -- cbn [store settled_request pending]. intros id' k'.
           destruct (decide (id = id')) as [<-|Hne].
           ++ now rewrite lookup_delete_eq.
           ++ rewrite lookup_delete_ne by exact Hne. apply Hp.
        -- apply UseCurrencyInfoFacts.written_truthy.
        -- now apply store_fresh, settled_request_fresh.
      * unfold settle. rewrite Epend. cbn [mbind option_bind].
        now apply IH.
Qed.

(** X6. Whatever renders and responses a use of the hook goes through, as
    long as no response has a function under a key of the history (a body
    is parsed JSON, so that such an entry can only be inherited), no render
    throws in the hook and the value it returns is truthy: never
    [undefined], [null] or another falsy value. A property read on it, such
    as [currencyInfo[to]] or [Object.keys(currencyInfo)], therefore never
    throws. *)
Theorem hook_returns_truthy (es : list HookEvent) :
  no_updater es = true ->
  exists h, hook_run UseCurrencyInfo.initial es = Some h
    /\ to_boolean (val (data h)) = true
    /\ (forall k, is_Some (get (val (data h)) k))
    /\ fresh h.
Proof.
  intros Hno.
  destruct (hook_run_truthy (rendered es) (outcomes es) es) with (h := UseCurrencyInfo.initial)
    as (h & Hrun & Ht & Hf); try auto.
  - intros k o Hk Ho. unfold no_updater in Hno.
    rewrite forallb_forall in Hno. specialize (Hno k Hk).
    rewrite forallb_forall in Hno. specialize (Hno o Ho).
    now apply negb_true_iff in Hno.
  - intros id k Hk. cbn in Hk. now rewrite lookup_empty in Hk.
  - split; [cbn; lia|]. intros id k Hk. cbn in Hk. now rewrite lookup_empty in Hk.
  - exists h. split; [exact Hrun|]. split; [exact Ht|]. split; [|exact Hf].
    intros k. now apply truthy_get.
Qed.

Lemma run_effect_count (currency : string) (h : Hook) :
  deps (run_effect currency h) = Some currency
  /\ next_task (run_effect currency h)
     = (next_task h + (if changed (deps h) currency then 1 else 0))%nat.
Proof.
  split; [apply CurrencyConverterFacts.run_effect_frame|].
  unfold run_effect. destruct (changed _ _); cbn; lia.
Qed.

(** X7. The hook issues one request per change of its argument and none
    otherwise: over any history that no render ends with an exception, the
    number of requests issued is the number of renders whose argument
    differs from the render before, the mount included. A render with the
    same argument never refetches, a response never issues a request, and
    nothing is cached: a return to an earlier currency fetches again. Every
    request in flight is one of those issued. *)
Theorem one_fetch_per_change (h h' : Hook) (es : list HookEvent) :
  fresh h ->
  hook_run h es = Some h' ->
  next_task h' = (next_task h + changes (deps h) es)%nat
  /\ (forall id k, pending h' !! id = Some k -> (id < next_task h')%nat).
Proof.
  revert h. induction es as [|e es IH]; intros h Hf Hrun.
  - cbn in Hrun. injection Hrun as <-. cbn. split; [lia|apply Hf].
  - cbn [hook_run] in Hrun.
    destruct (hook_step h e) as [h1|] eqn:Hstep; [|discriminate Hrun].
    cbn [mbind option_bind] in Hrun.
    pose proof (hook_step_fresh h h1 e Hf Hstep) as Hf1.
    destruct (IH _ Hf1 Hrun) as [Hn Hp]. split; [|exact Hp].
    rewrite Hn. destruct e as [currency|id o]; cbn [hook_step changes] in *.
    + injection Hstep as <-.
      destruct (run_effect_count currency h) as [Hd Hnt].
      rewrite Hd, Hnt. lia.
    + destruct (UseCurrencyInfoFacts.settle_inv id o h h1 Hstep)
        as [->|(k & _ & [->|(v' & -> & _)])]; reflexivity.
Qed.

End Hook.

Lemma initial_fresh : fresh UseCurrencyInfo.initial.
Proof.
  split; [cbn; lia|]. intros id k Hk. cbn in Hk. now rewrite lookup_empty in Hk.
Qed.

(** The theorem at a history of three renders and the answer for "usd". *)
Lemma hook_returns_truthy_witness :
  @no_updater plain_host back_and_forth = true
  /\ exists h, @hook_run plain_host UseCurrencyInfo.initial back_and_forth = Some h
       /\ to_boolean (val (data h)) = true.
Proof.
  assert (Hno : @no_updater plain_host back_and_forth = true) by (vm_compute; reflexivity).
  split; [exact Hno|].
  destruct (@hook_returns_truthy plain_host back_and_forth Hno) as (h & Hrun & Ht & _).
  now exists h.
Defined.

(** The theorem at a history that leaves "usd" and comes back: three
    requests. *)
Lemma one_fetch_per_change_witness :
  fresh UseCurrencyInfo.initial
  /\ exists h, @hook_run plain_host UseCurrencyInfo.initial back_and_forth = Some h
       /\ next_task h = 3%nat.
Proof.
  split; [exact initial_fresh|].
  destruct (@hook_run plain_host UseCurrencyInfo.initial back_and_forth) as [h|] eqn:E;
    [|vm_compute in E; discriminate E].
  exists h. split; [reflexivity|].
  destruct (@one_fetch_per_change plain_host UseCurrencyInfo.initial h back_and_forth
              initial_fresh E) as [Hn _].
  rewrite Hn. reflexivity.
Defined.

End HistoryFacts.

(** ** Histories of App *)

Module AppFacts.
Import JS Promise UseCurrencyInfo CurrencyConverter History.

Lemma mul_nan (x : float) : PrimFloat.is_nan (PrimFloat.mul x nan) = true.
Proof.
  unfold PrimFloat.is_nan. rewrite FloatAxioms.eqb_spec, FloatAxioms.mul_spec.
  change (Prim2SF nan) with SpecFloat.S754_nan.
  destruct (Prim2SF x); reflexivity.
Qed.

Lemma same_primitive_eq (a b : value) : same_primitive a b = true -> a = b.
Proof.
  destruct a, b; cbn; try discriminate; intros E; try reflexivity.
  - apply Bool.eqb_prop in E. now subst.
  - apply FloatAxioms.Leibniz.eqb_spec in E. now subst.
  - apply String.eqb_eq in E. now subst.
Qed.

(** Object.is against a freshly allocated object or a primitive: equal
    only when the values are the same primitive. *)
Lemma object_is_fresh (a : Ref) (n : nat) (v : value) :
  (ref a < n)%nat ->
  (object_is a {| ref := n; val := v |} = true -> v = val a)
  /\ (is_primitive v = false -> object_is a {| ref := n; val := v |} = false).
Proof.
  intros Hlt. unfold object_is. cbn [ref val].
  destruct (is_primitive (val a)) eqn:Ea.
  - split.
    + intros E. symmetry. now apply same_primitive_eq.
    + intros Ev. destruct (val a), v; cbn in *; congruence.
  - split.
    + intros E. apply andb_true_iff in E as [_ E].
      apply Nat.eqb_eq in E. lia.
    + intros Ev. rewrite Ev. cbn. apply Nat.eqb_neq. lia.
Qed.

Section Invariant.
Context `{Host}.

(** What a handler does to the hook: nothing, or the update of a
    response. *)
Lemma handle_hook (w w1 : Widget) (e : Event) :
  handle w e = Some w1 ->
  hook w1 = hook w
  \/ exists id o k,
       e = FetchSettles id o
       /\ pending (hook w) !! id = Some k
       /\ cells w1 = cells w
       /\ (hook w1 = settled_request id (hook w)
           \/ exists v', hook w1 = store v' (settled_request id (hook w))
                /\ (is_function (written k o) = false -> v' = written k o)).
Proof.
  destruct e; cbn [handle]; intros Hh; try (injection Hh as <-; now left).
  - destruct (convert _ _) as [us|]; [|discriminate Hh].
    cbn [mbind option_bind] in Hh. injection Hh as <-. now left.
  - destruct (settle id o (hook w)) as [h'|] eqn:Hs; [|discriminate Hh].
    cbn [mbind option_bind] in Hh. injection Hh as <-. cbn [hook cells].
    destruct (UseCurrencyInfoFacts.settle_inv id o _ _ Hs) as [->|(k & Hp & Hc)];
      [now left|].
    right. now exists id, o, k.
Qed.

Lemma handle_fresh (w w1 : Widget) (e : Event) :
  handle w e = Some w1 -> fresh (hook w) -> fresh (hook w1).
Proof.
  intros Hh Hf.
  destruct (handle_hook w w1 e Hh)
    as [->|(id & o & k & _ & _ & _ & [->|(v' & -> & _)])].
  - exact Hf.
  - now apply HistoryFacts.settled_request_fresh.
  - now apply HistoryFacts.store_fresh, HistoryFacts.settled_request_fresh.
Qed.

(** The widget after a render and its effects keeps the invariant when the
    cells handed to the render show the product, or the effect runs. *)
Lemma committed_invariant (w1 : Widget) (r : value) :
  get (val (data (hook w1))) (to (cells w1)) = Some r ->
  (to_boolean r = true -> toFixed r = Some ()) ->
  fresh (hook w1) ->
  (convert_changed (convert_deps w1) (cells w1) (data (hook w1)) = false ->
   to_boolean r = true ->
   convertedAmount (cells w1) = mul (amount (cells w1)) r) ->
  invariant (committed w1 r).
Proof.
  intros Hg Hfix Hf Hshow.
  destruct (CurrencyConverterFacts.apply_updates_effect
              (convert_changed (convert_deps w1) (cells w1) (data (hook w1)))
              (cells w1) r) as (Ea & _ & Eto).
  destruct (CurrencyConverterFacts.run_effect_frame (from (cells w1)) (hook w1))
    as (Ed & _).
  split; [apply CurrencyConverterFacts.committed_stable|].
  split; [|split; [now apply HistoryFacts.run_effect_fresh|]].
  - unfold renders, render, committed. cbn [cells hook].
    rewrite Ed, Eto, Hg. cbn [mbind option_bind].
    destruct (to_boolean r); [now apply Hfix|reflexivity].
  - unfold shows_product, committed. cbn [cells hook].
    rewrite Ed, Eto, Ea, Hg. intros r' E Hr. injection E as <-.
    unfold effect_updates. rewrite Hr, andb_true_r.
    destruct (convert_changed _ _ _) eqn:Ec; [reflexivity|].
    cbn [apply_updates fold_left]. now apply Hshow.
Qed.

Lemma mount_invariant (w : Widget) : mount = Some w -> invariant w.
Proof.
  intros Hm. destruct (CurrencyConverterFacts.commit_inv _ _ Hm) as (r & Hg & Hfix & ->).
  apply committed_invariant; try assumption.
  - exact HistoryFacts.initial_fresh.
  - cbn. discriminate.
Qed.

(** The dependencies of the effect are unchanged by a handler only when the
    amount, the target and the value of the rates are. *)
Lemma unchanged_inv (w w1 : Widget) (e : Event) :
  stable w -> fresh (hook w) ->
  handle w e = Some w1 ->
  convert_changed (convert_deps w1) (cells w1) (data (hook w1)) = false ->
  amount (cells w1) = amount (cells w)
  /\ to (cells w1) = to (cells w)
  /\ val (data (hook w1)) = val (data (hook w)).
Proof.
  intros [Hs _] [Hr _] Hh Hc.
  destruct (CurrencyConverterFacts.handle_frame w w1 e Hh) as (Hcd & _ & _).
  rewrite Hcd, Hs in Hc. unfold convert_changed in Hc.
  apply negb_false_iff in Hc. apply andb_true_iff in Hc as [Hc Et].
  apply andb_true_iff in Hc as [Ea Ei].
  apply FloatAxioms.Leibniz.eqb_spec in Ea. apply String.eqb_eq in Et.
  split; [now symmetry|]. split; [now symmetry|].
  destruct (handle_hook w w1 e Hh)
    as [->|(id & o & k & _ & _ & _ & [->|(v' & Eh & _)])]; [reflexivity|reflexivity|].
  rewrite Eh in Ei |- *. cbn [data val store settled_request alloc] in *.
  now apply (object_is_fresh (data (hook w)) (alloc (hook w)) v' Hr).
Qed.

Lemma handle_cells (w w1 : Widget) (id : nat) (o : FetchOutcome) :
  handle w (FetchSettles id o) = Some w1 -> cells w1 = cells w.
Proof.
  cbn [handle]. destruct (settle id o (hook w)) as [h'|]; [|discriminate].
  cbn [mbind option_bind]. intros E. now injection E as <-.
Qed.

Lemma step_invariant (w w' : Widget) (e : Event) :
  invariant w -> step w e = Some w' -> invariant w'.
Proof.
  intros (Hst & _ & Hf & Hshow) Hstep.
  destruct (CurrencyConverterFacts.step_inv w w' e Hstep) as (w1 & r & Hh & Hg & Hfix & ->).
  pose proof (handle_fresh w w1 e Hh Hf) as Hf1.
  apply committed_invariant; try assumption.
  intros Hc Hr.
  destruct (unchanged_inv w w1 e Hst Hf Hh Hc) as (Ea & Eto & Ev).
  rewrite Ev, Eto in Hg. pose proof (Hshow r Hg Hr) as Hp.
  destruct e; try (cbn [handle] in Hh).
  - injection Hh as <-. cbn in Ea |- *. now rewrite Ea.
  - injection Hh as <-. exact Hp.
  - injection Hh as <-. cbn in Ea |- *. exact Hp.
  - injection Hh as <-. cbn in Ea, Eto |- *. rewrite Ea. rewrite Ea in Hp.
    exact Hp.
  - unfold convert in Hh. rewrite Hg in Hh. cbn [mbind option_bind] in Hh.
    injection Hh as <-. reflexivity.
  - rewrite (handle_cells w w1 id o Hh). exact Hp.
Qed.

Lemma reachable_invariant (w : Widget) : reachable w -> invariant w.
Proof.
  intros (w0 & es & Hm & Hrun). apply mount_invariant in Hm.
  revert w0 Hm Hrun. induction es as [|e es IH]; intros w0 Hinv Hrun.
  - cbn in Hrun. now injection Hrun as <-.
  - cbn [run] in Hrun. destruct (step w0 e) as [w1|] eqn:Hs; [|discriminate Hrun].
    cbn [mbind option_bind] in Hrun.
    apply (IH w1); [|exact Hrun]. now apply (step_invariant w0 w1 e).
Qed.

End Invariant.

Lemma renders_inv `{Host} (w : Widget) :
  renders w ->
  exists r, get (val (data (hook w))) (to (cells w)) = Some r
            /\ (to_boolean r = true -> toFixed r = Some ()).
Proof.
  unfold renders, render.
  destruct (get (val (data (hook w))) (to (cells w))) as [r|]; [|discriminate].
  cbn [mbind option_bind]. intros Hr. exists r. split; [reflexivity|].
  intros Ht. rewrite Ht in Hr. now destruct (toFixed r) as [[]|].
Qed.

Lemma reachable_step `{Host} (w w' : Widget) (e : Event) :
  reachable w -> step w e = Some w' -> reachable w'.
Proof.
  intros (w0 & es & Hm & Hrun) Hstep. exists w0, (es ++ [e])%list.
  split; [exact Hm|]. clear Hm. revert w0 Hrun.
  induction es as [|e' es IH]; intros w0 Hrun.
  - cbn in Hrun. injection Hrun as ->. cbn [app run]. now rewrite Hstep.
  - cbn [app run] in Hrun |- *. destruct (step w0 e') as [w2|]; [|discriminate Hrun].
    cbn [mbind option_bind] in Hrun |- *. now apply IH.
Qed.

Lemma usd_to_inr_reachable : @reachable plain_host Scenario.usd_to_inr.
Proof.
  exists Scenario.awaiting_rates,
    [FetchSettles 0 (Response 200 (Some Scenario.usd_body))].
  split; vm_compute; reflexivity.
Qed.

Lemma awaiting_rates_reachable : @reachable plain_host Scenario.awaiting_rates.
Proof. exists Scenario.awaiting_rates, []. split; vm_compute; reflexivity. Qed.

(** X9. In every state the component reaches, by any sequence of inputs,
    selections, swaps, convert clicks and responses, [convertedAmount] is
    [amount * currencyInfo[to]] whenever that rate is truthy: no event, the
    swap included, leaves a result that disagrees with the amount and the
    rates on display. *)
Theorem result_shows_product `{Host} (w : Widget) :
  reachable w ->
  (forall r, get (val (data (hook w))) (to (cells w)) = Some r ->
             to_boolean r = true ->
             convertedAmount (cells w) = mul (amount (cells w)) r)
  /\ stable w
  /\ renders w.
Proof.
  intros Hr. destruct (reachable_invariant w Hr) as (Hs & Hre & _ & Hp).
  split; [exact Hp|]. now split.
Qed.

(** The theorem at the component showing 1 usd = 83.5 inr. *)
Lemma result_shows_product_witness :
  @reachable plain_host Scenario.usd_to_inr
  /\ convertedAmount (cells Scenario.usd_to_inr)
     = @mul plain_host (amount (cells Scenario.usd_to_inr)) (VNum 83.5).
Proof.
  split; [exact usd_to_inr_reachable|].
  destruct (@result_shows_product plain_host Scenario.usd_to_inr usd_to_inr_reachable)
    as (Hp & _).
  apply Hp; reflexivity.
Defined.

(** X8. Every response that carries an object of its own under the key,
    and every failed read, re-runs the conversion, also when the rates
    equal the ones held: the object written is new (a part of the body just
    parsed, or the literal [{}]), so the dependency [currencyInfo] differs.
    The cell then holds that object and the result is computed from it. *)
Theorem arriving_rates_rerun_effect `{Host} (w w' : Widget) (id : nat) (k : string)
    (o : FetchOutcome) (v : value) :
  reachable w ->
  pending (hook w) !! id = Some k ->
  (own_entry k o = Some v /\ is_object v = true)
  \/ (read_fails k o = true /\ v = empty_object) ->
  step w (FetchSettles id o) = Some w' ->
  written k o = v
  /\ convert_runs (log w') = S (convert_runs (log w))
  /\ val (data (hook w')) = v
  /\ cells w' = apply_updates
                  (match get v (to (cells w)) with
                   | Some r => if to_boolean r
                               then [SetConvertedAmount (mul (amount (cells w)) r)]
                               else []
                   | None => []
                   end) (cells w).
Proof.
  intros Hr Hp Hv Hstep.
  assert (Hw : written k o = v /\ is_object v = true).
  { destruct Hv as [[Hown Hobj]|[Hfail ->]].
    - split; [|exact Hobj]. apply UseCurrencyInfoFacts.written_own_entry; [exact Hown|].
      now destruct v.
    - split; [|reflexivity]. now apply UseCurrencyInfoFacts.written_cases. }
  destruct Hw as [Hw Hobj]. split; [exact Hw|].
  assert (Hprim : is_primitive v = false) by (now destruct v).
  assert (Hfun : is_function v = false) by (now destruct v).
  destruct (reachable_invariant w Hr) as (Hst & _ & [Href _] & _).
  destruct (CurrencyConverterFacts.step_inv w w' _ Hstep) as (w1 & r & Hh & Hg & _ & ->).
  assert (Eh : hook w1 = store v (settled_request id (hook w))).
  { cbn [handle] in Hh.
    rewrite (UseCurrencyInfoFacts.settle_pending id k o _ Hp), Hw in Hh.
    rewrite UseCurrencyInfoFacts.update_store in Hh by exact Hfun.
    cbn [mbind option_bind] in Hh. now injection Hh as <-. }
  pose proof (handle_cells w w1 id o Hh) as Hc.
  destruct Hst as [Hs Hd].
  destruct (CurrencyConverterFacts.handle_frame w w1 _ Hh) as (Hcd & Hlog & _).
  assert (Hchg : convert_changed (convert_deps w1) (cells w1) (data (hook w1)) = true).
  { rewrite Hcd, Hs, Eh, Hc. unfold convert_changed.
    cbn [data store settled_request alloc].
    rewrite (proj2 (object_is_fresh (data (hook w)) (alloc (hook w)) v Href) Hprim).
    now rewrite andb_false_r. }
  unfold committed. cbn [log cells hook]. rewrite Hchg, Hlog.
  rewrite !CurrencyConverterFacts.convert_runs_app.
  destruct (CurrencyConverterFacts.run_effect_frame (from (cells w1)) (hook w1))
    as (Ed & _).
  rewrite Ed, Eh. cbn [data val store settled_request deps].
  rewrite Eh in Hg. cbn [data val store] in Hg.
  rewrite Hc in Hg |- *. rewrite Hg. unfold effect_updates. cbn [andb].
  split; [|split; reflexivity].
  unfold changed. rewrite Hd, String.eqb_refl.
  cbn. lia.
Qed.

(** The theorem at the arrival of the rates for "usd" after the mount. *)
Lemma arriving_rates_rerun_effect_witness :
  @reachable plain_host Scenario.awaiting_rates
  /\ pending (hook Scenario.awaiting_rates) !! 0%nat = Some "usd"
  /\ own_entry "usd" (Response 200 (Some Scenario.usd_body)) = Some Scenario.usd_rates
  /\ convert_runs (log Scenario.usd_to_inr)
     = S (convert_runs (log Scenario.awaiting_rates)).
Proof.
  split; [exact awaiting_rates_reachable|]. split; [reflexivity|].
  split; [vm_compute; reflexivity|].
  apply (@arriving_rates_rerun_effect plain_host Scenario.awaiting_rates
           Scenario.usd_to_inr 0 "usd" (Response 200 (Some Scenario.usd_body))
           Scenario.usd_rates).
  - exact awaiting_rates_reachable.
  - reflexivity.
  - left. split; [vm_compute; reflexivity|reflexivity].
  - vm_compute. reflexivity.
Defined.

(** X17. An entry that is a function is not stored: [setData] takes it
    for an updater, and the render after the response calls it with the
    rates held. When the call returns them (as [Object] does, the
    [constructor] that every parsed object inherits) the response is lost:
    the rates, the cells and the log stay as they are and no effect runs.
    When the call throws, the render throws and the component is torn
    down. Otherwise the cell holds what the call returns. *)
Theorem function_entry_is_called `{Host} (w : Widget) (id : nat) (k : string)
    (o : FetchOutcome) (f : string) :
  reachable w ->
  pending (hook w) !! id = Some k ->
  written k o = VFun f ->
  match call f (val (data (hook w))) with
  | Throws => step w (FetchSettles id o) = None
  | ReturnsArgument =>
      exists w', step w (FetchSettles id o) = Some w'
        /\ cells w' = cells w
        /\ data (hook w') = data (hook w)
        /\ log w' = log w
        /\ pending (hook w') = delete id (pending (hook w))
  | Returns v =>
      forall w', step w (FetchSettles id o) = Some w' -> val (data (hook w')) = v
  end.
Proof.
  intros Hr Hp Hw.
  destruct (reachable_invariant w Hr) as ([Hs Hd] & Hre & _).
  destruct (renders_inv w Hre) as (r & Hg & Hfix).
  unfold step. cbn [handle].
  rewrite (UseCurrencyInfoFacts.settle_pending id k o _ Hp), Hw.
  cbn [update settled_request data val].
  destruct (call f (val (data (hook w)))) as [| |v]; cbn [mbind option_bind].
  - reflexivity.
  - match goal with |- context [commit ?w0] => set (w1 := w0) end.
    exists (committed w1 r). split.
    + now apply CurrencyConverterFacts.commit_some.
    + unfold committed. subst w1. cbn [cells hook convert_deps log data deps].
      rewrite Hs, CurrencyConverterFacts.convert_changed_same.
      unfold effect_updates, run_effect, changed. cbn [andb].
      change (deps (settled_request id (hook w))) with (deps (hook w)).
      rewrite Hd, String.eqb_refl. cbn [negb apply_updates fold_left].
      rewrite !app_nil_r. auto.
  - intros w' Hc.
    destruct (CurrencyConverterFacts.commit_inv _ _ Hc) as (r' & _ & _ & ->).
    unfold committed. cbn [hook].
    match goal with |- context [run_effect ?c ?h] =>
      destruct (CurrencyConverterFacts.run_effect_frame c h) as (Ed & _) end.
    now rewrite Ed.
Qed.

(** The theorem at the answer to the request for "constructor", a body
    without an entry of this name. *)
Lemma function_entry_is_called_witness :
  @reachable Scenario.object_host Scenario.asked_constructor
  /\ pending (hook Scenario.asked_constructor) !! 1%nat = Some "constructor"
  /\ @written Scenario.object_host "constructor" (Response 200 (Some Scenario.usd_body))
     = VFun "Object"
  /\ exists w',
       @step Scenario.object_host Scenario.asked_constructor
         (FetchSettles 1 (Response 200 (Some Scenario.usd_body))) = Some w'
       /\ data (hook w') = data (hook Scenario.asked_constructor).
Proof.
  assert (Hr : @reachable Scenario.object_host Scenario.asked_constructor).
  { exists Scenario.awaiting_rates, [FromSelect "constructor"].
    split; vm_compute; reflexivity. }
  assert (Hw : @written Scenario.object_host "constructor"
                 (Response 200 (Some Scenario.usd_body)) = VFun "Object")
    by (vm_compute; reflexivity).
  split; [exact Hr|]. split; [reflexivity|]. split; [exact Hw|].
  pose proof (@function_entry_is_called Scenario.object_host Scenario.asked_constructor
                1 "constructor" (Response 200 (Some Scenario.usd_body)) "Object"
                Hr eq_refl Hw) as Hcall.
  change (@call Scenario.object_host "Object"
            (val (data (hook Scenario.asked_constructor)))) with ReturnsArgument in Hcall.
  destruct Hcall as (w' & Hstep & _ & Hdata & _).
  now exists w'.
Defined.

(** X10. A change of the source currency changes no amount: [amount],
    [to], [convertedAmount] and the rates stay as they are and the
    conversion does not run; the result follows only when the response
    arrives. The hook issues one request, keyed by the new currency, unless
    the selection is the currency already held. The render never throws. *)
Theorem source_change_waits_for_rates `{Host} (w : Widget) (f : string) :
  reachable w ->
  exists w', step w (FromSelect f) = Some w'
    /\ from (cells w') = f
    /\ amount (cells w') = amount (cells w)
    /\ to (cells w') = to (cells w)
    /\ convertedAmount (cells w') = convertedAmount (cells w)
    /\ data (hook w') = data (hook w)
    /\ convert_runs (log w') = convert_runs (log w)
    /\ next_task (hook w')
       = (next_task (hook w) + (if String.eqb (from (cells w)) f then 0 else 1))%nat
    /\ (from (cells w) <> f -> pending (hook w') !! next_task (hook w) = Some f).
Proof.
  intros Hr. destruct (reachable_invariant w Hr) as ([Hs Hd] & Hre & _).
  destruct (renders_inv w Hre) as (r & Hg & Hfix).
  set (w1 := with_cells (apply_updates [SetFrom f] (cells w)) w).
  exists (committed w1 r). split.
  - unfold step. cbn [handle mbind option_bind]. fold w1.
    now apply CurrencyConverterFacts.commit_some.
  - assert (Hch : convert_changed (convert_deps w1) (cells w1) (data (hook w1)) = false).
    { subst w1. cbn [cells hook convert_deps with_cells]. rewrite Hs.
      change (apply_updates [SetFrom f] (cells w))
        with {| amount := amount (cells w); from := f; to := to (cells w);
                convertedAmount := convertedAmount (cells w) |}.
      apply (CurrencyConverterFacts.convert_changed_same
               {| amount := amount (cells w); from := f; to := to (cells w);
                  convertedAmount := convertedAmount (cells w) |}). }
    unfold committed. rewrite Hch. unfold effect_updates.
    cbn [andb apply_updates fold_left cells hook log].
    subst w1. cbn [cells hook log with_cells].
    change (apply_updates [SetFrom f] (cells w))
      with {| amount := amount (cells w); from := f; to := to (cells w);
              convertedAmount := convertedAmount (cells w) |}.
    cbn [amount from to convertedAmount].
    destruct (CurrencyConverterFacts.run_effect_frame f (hook w)) as (Ed & _).
    destruct (HistoryFacts.run_effect_count f (hook w)) as (_ & En).
    rewrite Ed, En, Hd. unfold changed.
    rewrite !CurrencyConverterFacts.convert_runs_app.
    repeat (split; [reflexivity|]).
    split; [destruct (String.eqb _ _); cbn; lia|].
    split; [now destruct (String.eqb _ _)|].
    intros Hne. unfold run_effect, changed. rewrite Hd.
    destruct (String.eqb_spec (from (cells w)) f) as [E|_]; [contradiction|].
    cbn. apply lookup_insert_eq.
Qed.

(** The theorem at a change from "usd" to "eur". *)
Lemma source_change_waits_for_rates_witness :
  @reachable plain_host Scenario.usd_to_inr
  /\ exists w', @step plain_host Scenario.usd_to_inr (FromSelect "eur") = Some w'
       /\ from (cells w') = "eur".
Proof.
  split; [exact usd_to_inr_reachable|].
  destruct (@source_change_waits_for_rates plain_host Scenario.usd_to_inr "eur"
              usd_to_inr_reachable) as (w' & Hs & Hf & _).
  now exists w'.
Defined.

(** X11. The convert button has no guard: pressed while the rates hold no
    entry for the target currency, it writes NaN into [convertedAmount],
    which the effect would have left untouched. *)
Theorem convert_without_rate_is_nan `{Host} (w : Widget) :
  get (val (data (hook w))) (to (cells w)) = Some VUndefined ->
  exists w', step w ConvertClick = Some w'
    /\ PrimFloat.is_nan (convertedAmount (cells w')) = true
    /\ amount (cells w') = amount (cells w)
    /\ auto_convert (cells w) (val (data (hook w))) = Some [].
Proof.
  intros Hg.
  set (w1 := with_cells
               (apply_updates [SetConvertedAmount (mul (amount (cells w)) VUndefined)]
                  (cells w)) w).
  exists (committed w1 VUndefined). split.
  - unfold step. cbn [handle]. unfold convert. rewrite Hg.
    cbn [mbind option_bind]. fold w1.
    apply CurrencyConverterFacts.commit_some; [exact Hg|discriminate].
  - unfold committed, effect_updates. subst w1. cbn [to_boolean].
    rewrite andb_false_r. cbn. split; [apply mul_nan|]. split; [reflexivity|].
    unfold auto_convert. now rewrite Hg.
Qed.

(** The theorem at the component whose rates have not arrived. *)
Lemma convert_without_rate_is_nan_witness :
  @get plain_host (val (data (hook Scenario.awaiting_rates)))
     (to (cells Scenario.awaiting_rates)) = Some VUndefined
  /\ exists w', @step plain_host Scenario.awaiting_rates ConvertClick = Some w'
       /\ PrimFloat.is_nan (convertedAmount (cells w')) = true.
Proof.
  split; [reflexivity|].
  destruct (@convert_without_rate_is_nan plain_host Scenario.awaiting_rates eq_refl)
    as (w' & Hs & Hn & _).
  now exists w'.
Defined.



Lemma numeric_get `{Host} (v : value) (t : string) :
  uninherited t -> numeric v ->
  exists r, get v t = Some r /\ (to_boolean r = true -> toFixed r = Some ()).
Proof.
  intros Hb (m & -> & Hm). unfold get.
  destruct (m !! t) as [x|] eqn:E.
  - exists x. split; [reflexivity|]. destruct (Hm t x E) as [f ->]. reflexivity.
  - rewrite Hb. exists VUndefined. split; [reflexivity|discriminate].
Qed.

(** X13. While the rates held are a mapping to numbers, no input, swap or
    convert click tears the component down, and no selection of a target
    currency either, as long as the currencies on display and the one
    selected name no inherited property (the entries of the dropdown are
    own keys of the rates); nor does a response whose rates are again a
    mapping to numbers (the empty fallback is one). The rates stay such a
    mapping. *)
Theorem numeric_rates_never_tear_down `{Host} (w : Widget) (e : Event) :
  uninherited (to (cells w)) ->
  uninherited (from (cells w)) ->
  (forall t, e = ToSelect t -> uninherited t) ->
  numeric (val (data (hook w))) ->
  (forall id o k, e = FetchSettles id o -> pending (hook w) !! id = Some k ->
                  numeric (written k o)) ->
  exists w', step w e = Some w' /\ numeric (val (data (hook w'))).
Proof.
  intros Hto Hfrom Hsel Hn Hserved.
  assert (Hh : exists w1, handle w e = Some w1 /\ numeric (val (data (hook w1)))
                 /\ uninherited (to (cells w1))).
  { destruct e; cbn [handle];
      try (eexists; split; [reflexivity|split; [exact Hn|]]; cbn; auto; fail).
    - destruct (numeric_get _ (to (cells w)) Hto Hn) as (r & Hg & _).
      unfold convert. rewrite Hg. cbn [mbind option_bind].
      eexists. split; [reflexivity|]. split; [exact Hn|exact Hto].
    - destruct (pending (hook w) !! id) as [k|] eqn:Hp.
      + rewrite (UseCurrencyInfoFacts.settle_pending id k o _ Hp).
        pose proof (Hserved id o k eq_refl Hp) as Hnw.
        rewrite UseCurrencyInfoFacts.update_store
          by (destruct Hnw as (m & -> & _); reflexivity).
        cbn [mbind option_bind]. eexists. split; [reflexivity|].
        split; [exact Hnw|exact Hto].
      + unfold settle. rewrite Hp. cbn [mbind option_bind].
        eexists. split; [reflexivity|]. split; [exact Hn|exact Hto]. }
  destruct Hh as (w1 & Hh & Hn1 & Hto1).
  destruct (numeric_get _ (to (cells w1)) Hto1 Hn1) as (r & Hg & Hfix).
  exists (committed w1 r). split.
  - unfold step. rewrite Hh. cbn [mbind option_bind].
    now apply CurrencyConverterFacts.commit_some.
  - unfold committed. cbn [hook].
    destruct (CurrencyConverterFacts.run_effect_frame (from (cells w1)) (hook w1))
      as (Ed & _).
    now rewrite Ed.
Qed.

Lemma usd_rates_numeric : numeric Scenario.usd_rates.
Proof.
  exists {[ "inr" := VNum 83.5; "usd" := VNum 1 ]}. split; [reflexivity|].
  intros k x Hk.
  destruct (decide (k = "inr")) as [->|Hne].
  - rewrite lookup_insert_eq in Hk. injection Hk as <-. eauto.
  - rewrite lookup_insert_ne in Hk by congruence.
    destruct (decide (k = "usd")) as [->|Hne'].
    + rewrite lookup_singleton_eq in Hk. injection Hk as <-. eauto.
    + rewrite lookup_singleton_ne in Hk by congruence. discriminate Hk.
Qed.

(** The theorem at a swap while the usd rates are held. *)
Lemma numeric_rates_never_tear_down_witness :
  @uninherited plain_host (to (cells Scenario.usd_to_inr))
  /\ @uninherited plain_host (from (cells Scenario.usd_to_inr))
  /\ numeric (val (data (hook Scenario.usd_to_inr)))
  /\ exists w', @step plain_host Scenario.usd_to_inr SwapClick = Some w'
       /\ numeric (val (data (hook w'))).
Proof.
  assert (Hb : forall t, @uninherited plain_host t) by (intros t m; reflexivity).
  split; [apply Hb|]. split; [apply Hb|]. split; [exact usd_rates_numeric|].
  apply (@numeric_rates_never_tear_down plain_host Scenario.usd_to_inr SwapClick
           (Hb _) (Hb _)).
  - intros t E. discriminate E.
  - exact usd_rates_numeric.
  - intros id o k E. discriminate E.
Defined.

(** X14. A rate served as text tears the component down: when a response
    brings rates whose entry for the target currency is a non-empty
    string, on a host where strings have no [toFixed], the render after the
    response throws at [currencyInfo[to].toFixed(4)]. *)
Theorem text_rate_tears_down `{Host} (w : Widget) (id : nat) (k : string)
    (o : FetchOutcome) (m : gmap string value) (s : string) :
  pending (hook w) !! id = Some k ->
  written k o = VObj m ->
  m !! to (cells w) = Some (VStr s) ->
  s <> "" ->
  (forall f, proto_get (VStr s) "toFixed" <> VFun f) ->
  step w (FetchSettles id o) = None.
Proof.
  intros Hp Hw Hm Hs Hno. unfold step. cbn [handle].
  rewrite (UseCurrencyInfoFacts.settle_pending id k o _ Hp), Hw.
  cbn [update mbind option_bind].
  unfold commit, render. cbn [cells hook store data val].
  unfold get at 1. rewrite Hm. cbn [mbind option_bind to_boolean].
  destruct (String.eqb_spec s "") as [->|_]; [contradiction|].
  cbn [negb]. unfold toFixed, get. cbn [mbind option_bind].
  destruct (proto_get (VStr s) "toFixed") eqn:Ef; try reflexivity.
  exfalso. now apply (Hno name).
Qed.

(** The theorem at the first response, with the rate for "inr" as text. *)
Lemma text_rate_tears_down_witness :
  pending (hook Scenario.awaiting_rates) !! 0%nat = Some "usd"
  /\ @step plain_host Scenario.awaiting_rates
       (FetchSettles 0 (Response 200 (Some text_rate_body))) = None.
Proof.
  split; [reflexivity|].
  apply (@text_rate_tears_down plain_host Scenario.awaiting_rates 0 "usd"
           (Response 200 (Some text_rate_body)) {[ "inr" := VStr "83.5" ]} "83.5").
  - reflexivity.
  - vm_compute. reflexivity.
  - vm_compute. reflexivity.
  - discriminate.
  - intros f. discriminate.
Defined.

(** X15. A change of the target currency converts at once with the rates
    held: when they have a truthy rate for the new target the result is
    [amount] times that rate; when they have none the old number stays on
    display, although the currency beside it has changed. *)
Theorem target_change_uses_held_rates `{Host} (w : Widget) (t : string) (r : value) :
  reachable w ->
  get (val (data (hook w))) t = Some r ->
  (to_boolean r = true -> toFixed r = Some ()) ->
  exists w', step w (ToSelect t) = Some w'
    /\ to (cells w') = t
    /\ amount (cells w') = amount (cells w)
    /\ convertedAmount (cells w')
       = (if to_boolean r then mul (amount (cells w)) r
          else convertedAmount (cells w)).
Proof.
  intros Hr Hg Hfix.
  set (w1 := with_cells (apply_updates [SetTo t] (cells w)) w).
  assert (Hstep : step w (ToSelect t) = Some (committed w1 r)).
  { unfold step. cbn [handle mbind option_bind]. fold w1.
    now apply CurrencyConverterFacts.commit_some. }
  exists (committed w1 r). split; [exact Hstep|].
  assert (Hr' : reachable (committed w1 r))
    by (now apply (reachable_step w _ (ToSelect t))).
  destruct (reachable_invariant _ Hr') as (_ & _ & _ & Hp).
  destruct (CurrencyConverterFacts.apply_updates_effect
              (convert_changed (convert_deps w1) (cells w1) (data (hook w1)))
              (cells w1) r) as (Ea & _ & Eto).
  destruct (CurrencyConverterFacts.run_effect_frame (from (cells w1)) (hook w1))
    as (Ed & _).
  split; [unfold committed; cbn [cells]; now rewrite Eto|].
  split; [unfold committed; cbn [cells]; now rewrite Ea|].
  destruct (to_boolean r) eqn:Hb.
  - rewrite (Hp r); [unfold committed; cbn [cells]; now rewrite Ea| |exact Hb].
    unfold committed. cbn [cells hook]. now rewrite Ed, Eto.
  - unfold committed, effect_updates. cbn [cells]. rewrite Hb, andb_false_r.
    reflexivity.
Qed.

(** The theorem at a change of the target to "usd" while the usd rates are
    held. *)
Lemma target_change_uses_held_rates_witness :
  @reachable plain_host Scenario.usd_to_inr
  /\ exists w', @step plain_host Scenario.usd_to_inr (ToSelect "usd") = Some w'
       /\ convertedAmount (cells w') = 1%float.
Proof.
  split; [exact usd_to_inr_reachable|].
  destruct (@target_change_uses_held_rates plain_host Scenario.usd_to_inr "usd" (VNum 1)
              usd_to_inr_reachable eq_refl (fun _ => eq_refl))
    as (w' & Hs & _ & _ & Hc).
  exists w'. split; [exact Hs|]. rewrite Hc. reflexivity.
Defined.

(** X16. What a swap leaves on display. The amounts and currencies change
    places, and then the effect recomputes the result from the rates still
    held, which are those of the old source currency: the result is the
    old [convertedAmount] times [currencyInfo[old from]] when that rate is
    truthy, and the old [amount] otherwise. *)
Theorem swap_result `{Host} (w w' : Widget) (r : value) :
  reachable w ->
  step w SwapClick = Some w' ->
  get (val (data (hook w))) (from (cells w)) = Some r ->
  amount (cells w') = convertedAmount (cells w)
  /\ from (cells w') = to (cells w)
  /\ to (cells w') = from (cells w)
  /\ data (hook w') = data (hook w)
  /\ convertedAmount (cells w')
     = (if to_boolean r then mul (convertedAmount (cells w)) r
        else amount (cells w)).
Proof.
  intros Hr Hstep Hg.
  assert (Hr' : reachable w')
    by (now apply (reachable_step w _ SwapClick)).
  destruct (reachable_invariant _ Hr') as (_ & _ & _ & Hp).
  destruct (CurrencyConverterFacts.swap_then_effect w w' Hstep) as (Ea & Ef & Et & Hc).
  destruct (CurrencyConverterFacts.step_inv w w' _ Hstep) as (w1 & r1 & Hh & Hg1 & _ & Ew).
  assert (Hd : data (hook w') = data (hook w)).
  { cbn [handle] in Hh. injection Hh as <-. rewrite Ew. unfold committed.
    cbn [hook with_cells]. apply CurrencyConverterFacts.run_effect_frame. }
  repeat (split; [assumption|]).
  destruct (to_boolean r) eqn:Hb.
  - rewrite (Hp r); [now rewrite Ea| |exact Hb]. now rewrite Hd, Et.
  - destruct Hc as [E|(r' & Hg' & Hr'' & _)]; [exact E|]. congruence.
Qed.

(** The theorem at the swap from 1 usd = 83.5 inr: the result is
    83.5 times the usd rate for "usd". *)
Lemma swap_result_witness :
  @reachable plain_host Scenario.usd_to_inr
  /\ exists w', @step plain_host Scenario.usd_to_inr SwapClick = Some w'
       /\ convertedAmount (cells w') = 83.5%float.
Proof.
  split; [exact usd_to_inr_reachable|].
  destruct (@step plain_host Scenario.usd_to_inr SwapClick) as [w'|] eqn:E;
    [|vm_compute in E; discriminate E].
  exists w'. split; [reflexivity|].
  destruct (@swap_result plain_host Scenario.usd_to_inr w' (VNum 1)
              usd_to_inr_reachable E eq_refl) as (_ & _ & _ & _ & Hc).
  rewrite Hc. reflexivity.
Defined.

End AppFacts.
